(** * Hope: service-location directory

    A shallow embedding of the two algorithmic cores of the repository:

    - the scraper's [Deduplicator] (src/scraper/scraper/processors/deduplication.py)
      together with the ingestion loop of src/scraper/scraper/main.py;
    - the backend's [GeospatialService]
      (src/backend/app/services/geospatial_service.py) together with the
      in-bounds endpoint of src/backend/app/routers/public.py.

    Conventions of the embedding.

    - A database table is the list of its rows in the order the database
      returns them; a reference to a persistent ORM object is the position
      of its row, so that mutating the object is an update at that position.
      The position also stands for the primary key (a random UUID in the
      code).
    - [datetime.now()] is an argument of the functions that read the clock,
      and the external geocoder is a function of the record.
    - Python [float]s are modelled by a field of exact numbers: the
      deduplicator is parametric in the coordinate type (it only copies
      coordinates); the geospatial engine uses the real numbers [R];
      similarity ratios are rationals [Q].
    - [Optional[T]] is [option T]; truthiness ([if x:], [x or y]) follows
      Python's rules for the types involved. *)

From Stdlib Require Import Reals Lra Machin QArith ZArith String.
From stdpp Require Import base option list sorting strings gmap.

(** ** Python conventions *)

Module Py.

(** [bool(x)]: what [if x:] tests. *)
Class Truthy (A : Type) := truthy : A → bool.
Global Hint Mode Truthy ! : typeclass_instances.

Global Instance truthy_bool : Truthy bool := λ b, b.
Global Instance truthy_str : Truthy string :=
  λ s, match s with EmptyString => false | String _ _ => true end.
Global Instance truthy_list {A} : Truthy (list A) :=
  λ l, match l with [] => false | _ :: _ => true end.
(** A 2-tuple is never empty. *)
Global Instance truthy_pair {A B} : Truthy (A * B) := λ _, true.
(** [None] is falsy; a present value has the truth value of its type. *)
Global Instance truthy_optional {A} `{Truthy A} : Truthy (option A) :=
  λ o, match o with None => false | Some a => truthy a end.

(** [x or y] evaluates to [x] when [x] is truthy and to [y] otherwise. *)
Definition or_ {A} `{Truthy A} (x y : A) : A := if truthy x then x else y.

(** Outcome of a call that may raise. *)
Inductive result (E A : Type) : Type :=
| Return (a : A)
| Raise (e : E).
Global Arguments Return {E A} a.
Global Arguments Raise {E A} e.

(** The standard-library string services the deduplicator calls:
    [str.lower()] and [difflib.SequenceMatcher(None, a, b).ratio()].
    The ratio is [2.0 * M / T], a rational in [0, 1]. *)
Class StrLib := {
  lower : string → string;
  ratio : string → string → Q
}.

(** [x > y] on ratios. *)
Definition Qgtb (x y : Q) : bool :=
  match (x ?= y)%Q with Gt => true | _ => false end.

End Py.
Import Py.

(** ** ORM rows (src/backend/app/models) and scraper records
     (src/scraper/scraper/models.py) *)

(** A [datetime.time] without time zone; two of them compare as the
    tuples (hour, minute, second, microsecond). *)
Record time := mk_time {
  hour : nat; minute : nat; second : nat; microsecond : nat
}.

(** backend [OperatingHours] *)
Record OperatingHours := {
  day_of_week : Z;                (* 0 = Sunday, 6 = Saturday *)
  open_time : option time;
  close_time : option time;
  is_24_hours : bool;
  is_closed : bool;
  notes : option string
}.

(** [LocationService] joined with its [ServiceType]. *)
Record LocationService := {
  service_type_slug : string;
  service_type_name : string;
  ls_notes : option string;
  ls_capacity : option Z
}.

(** [ServiceLocation], over the coordinate type [F]. *)
Record ServiceLocation {F : Type} := {
  name : string;
  description : option string;
  organization_name : option string;
  street_address : option string;
  city : option string;
  state : option string;
  zip_code : option string;
  borough : option string;
  latitude : option F;
  longitude : option F;
  phone : option string;
  website : option string;
  wheelchair_accessible : option bool;
  languages_spoken : option (list string);
  data_source : option string;
  external_id : option string;
  verified : option bool;
  deleted_at : option Z;
  (* relationships *)
  location_services : list LocationService;
  operating_hours : list OperatingHours
}.
Arguments ServiceLocation F : clear implicits.

(** [RawServiceData]: the fields the deduplicator and the ingestion loop read. *)
Record RawServiceData := {
  raw_name : string;
  raw_organization_name : option string;
  raw_description : option string;
  raw_street_address : option string;
  raw_city : string;
  raw_state : string;
  raw_zip_code : option string;
  raw_borough : option string;
  raw_phone : option string;
  raw_website : option string;
  raw_service_types : list string;
  raw_wheelchair_accessible : option bool;
  raw_languages_spoken : option (list string);
  raw_external_id : string;
  raw_data_source : string
}.

(** ** Tables and queries *)

Module Db.
Section Db.
Context {Row : Type}.

(** [query(...).filter(P).all()]: the matching rows, each with its position. *)
Definition query_all (P : Row → Prop) `{!∀ l, Decision (P l)}
    (db : list Row) : list (nat * Row) :=
  filter (λ r, P r.2) (imap pair db).

(** [query(...).filter(P).first()] *)
Definition query_first (P : Row → Prop) `{!∀ l, Decision (P l)}
    (db : list Row) : option (nat * Row) :=
  list_find P db.

End Db.
End Db.
Import Db.

(** ** Deduplicator *)

Module Deduplicator.
Section Deduplicator.
Context {F : Type} {lib : StrLib}.

Local Abbreviation Location := (ServiceLocation F).
(** The [service_locations] table. *)
Local Abbreviation Table := (list Location).
(** A persistent object: the position of the row and its current value. *)
Local Abbreviation Ref := (nat * Location)%type.

(** The filter of strategy 1. A SQL [==] never holds on a NULL column. *)
Definition same_identity (raw : RawServiceData) (l : Location) : Prop :=
  external_id l = Some (raw_external_id raw) ∧
  data_source l = Some (raw_data_source raw).

(** The filter of strategy 2. *)
Definition borough_candidate (raw : RawServiceData) (l : Location) : Prop :=
  borough l = raw_borough raw ∧ deleted_at l = None.

Definition name_similarity (raw : RawServiceData) (candidate : Location) : Q :=
  ratio (lower (raw_name raw)) (lower (name candidate)).

Definition address_similarity (raw : RawServiceData) (candidate : Location) : Q :=
  match raw_street_address raw, street_address candidate with
  | Some a, Some b =>
      if truthy a && truthy b then ratio (lower a) (lower b) else 0
  | _, _ => 0
  end.

(** [name_similarity > 0.85 and address_similarity > 0.8] *)
Definition high_confidence (raw : RawServiceData) (candidate : Location) : bool :=
  Qgtb (name_similarity raw candidate) (85 # 100) &&
  Qgtb (address_similarity raw candidate) (8 # 10).

(** Strategy 1 of [find_match]. *)
Definition identity_match (db : Table) (raw : RawServiceData) : option Ref :=
  if truthy (raw_external_id raw) && truthy (raw_data_source raw)
  then query_first (same_identity raw) db
  else None.

(** Strategy 2 of [find_match]: the first candidate of the borough that
    clears both thresholds. *)
Definition fuzzy_match (db : Table) (raw : RawServiceData) : option Ref :=
  if truthy (raw_borough raw)
  then snd <$> list_find (λ c : Ref, high_confidence raw c.2 = true)
                         (query_all (borough_candidate raw) db)
  else None.

Definition find_match (db : Table) (raw : RawServiceData) : option Ref :=
  match identity_match db raw with
  | Some m => Some m
  | None => fuzzy_match db raw
  end.

Inductive ValueError := Coordinates_required.

(** The assignments of the update branch of [create_or_update]. *)
Definition updated (existing : Location) (raw : RawServiceData) (lat lon : F)
    : Location :=
  {| name := raw_name raw;
     description := or_ (raw_description raw) (description existing);
     organization_name :=
       or_ (raw_organization_name raw) (organization_name existing);
     street_address := street_address existing;
     city := city existing;
     state := state existing;
     zip_code := zip_code existing;
     borough := borough existing;
     latitude := Some lat;
     longitude := Some lon;
     phone := or_ (raw_phone raw) (phone existing);
     website := or_ (raw_website raw) (website existing);
     wheelchair_accessible :=
       or_ (raw_wheelchair_accessible raw) (wheelchair_accessible existing);
     languages_spoken :=
       or_ (raw_languages_spoken raw) (languages_spoken existing);
     data_source := data_source existing;
     external_id := external_id existing;
     verified := verified existing;
     deleted_at := deleted_at existing;
     location_services := location_services existing;
     operating_hours := operating_hours existing |}.

(** The constructor call of the create branch. *)
Definition created (raw : RawServiceData) (lat lon : F) : Location :=
  {| name := raw_name raw;
     description := raw_description raw;
     organization_name := raw_organization_name raw;
     street_address := raw_street_address raw;
     city := Some (raw_city raw);
     state := Some (raw_state raw);
     zip_code := raw_zip_code raw;
     borough := raw_borough raw;
     latitude := Some lat;
     longitude := Some lon;
     phone := raw_phone raw;
     website := raw_website raw;
     wheelchair_accessible := raw_wheelchair_accessible raw;
     languages_spoken := raw_languages_spoken raw;
     data_source := Some (raw_data_source raw);
     external_id := Some (raw_external_id raw);
     verified := Some false;
     deleted_at := None;
     location_services := [];
     operating_hours := [] |}.

(** [create_or_update]: the table afterwards and the object returned. *)
Definition create_or_update (db : Table) (raw : RawServiceData)
    (coords : option (F * F)) : result ValueError (Table * Ref) :=
  match coords with
  | None => Raise Coordinates_required
  | Some (lat, lon) =>
      match find_match db raw with
      | Some (i, existing) =>
          let l := updated existing raw lat lon in
          Return (<[i := l]> db, (i, l))
      | None =>
          let l := created raw lat lon in
          Return (db ++ [l], (length db, l))
      end
  end.

End Deduplicator.
End Deduplicator.

(** ** The ingestion loop (src/scraper/scraper/main.py) *)

Module Ingestion.
Import Deduplicator.

Record Stats := {
  total_scraped : nat;
  total_valid : nat;
  total_geocoded : nat;
  total_created : nat;
  total_updated : nat;
  total_failed : nat
}.

Definition stats0 : Stats :=
  {| total_scraped := 0; total_valid := 0; total_geocoded := 0;
     total_created := 0; total_updated := 0; total_failed := 0 |}.

Section Ingestion.
Context {F : Type} {lib : StrLib}.
(** [geocoder.geocode_with_fallback(address, city, state, zip_code, borough)]:
    the external geocoding service, a function of the fields it is given. *)
Context (geocode_with_fallback : RawServiceData → option (F * F)).

Local Abbreviation Table := (list (ServiceLocation F)).

(** One iteration of [for i, data in enumerate(raw_data, 1)]. The calls
    [add_services] and [add_operating_hours] write the [location_services]
    and [operating_hours] tables only; [db.commit()] keeps the changes and
    the [except] branch rolls them back. *)
Definition process (st : Table * Stats) (data : RawServiceData) : Table * Stats :=
  let '(db, stats) := st in
  let coords := geocode_with_fallback data in
  if negb (truthy coords) then
    (db, {| total_scraped := total_scraped stats;
            total_valid := total_valid stats;
            total_geocoded := total_geocoded stats;
            total_created := total_created stats;
            total_updated := total_updated stats;
            total_failed := S (total_failed stats) |})
  else
    let existing := find_match db data in
    match create_or_update db data coords with
    | Raise _ =>
        (db, {| total_scraped := total_scraped stats;
                total_valid := total_valid stats;
                total_geocoded := S (total_geocoded stats);
                total_created := total_created stats;
                total_updated := total_updated stats;
                total_failed := S (total_failed stats) |})
    | Return (db', _) =>
        (db', {| total_scraped := total_scraped stats;
                 total_valid := total_valid stats;
                 total_geocoded := S (total_geocoded stats);
                 total_created :=
                   match existing with
                   | Some _ => total_created stats
                   | None => S (total_created stats)
                   end;
                 total_updated :=
                   match existing with
                   | Some _ => S (total_updated stats)
                   | None => total_updated stats
                   end;
                 total_failed := total_failed stats |})
    end.

(** The body of [for scraper in scrapers] for the records [raw_data] that
    [scraper.run()] returned. *)
Definition run_scraper (st : Table * Stats) (raw_data : list RawServiceData)
    : Table * Stats :=
  let '(db, stats) := st in
  foldl process
    (db, {| total_scraped := total_scraped stats + length raw_data;
            total_valid := total_valid stats + length raw_data;
            total_geocoded := total_geocoded stats;
            total_created := total_created stats;
            total_updated := total_updated stats;
            total_failed := total_failed stats |})
    raw_data.

(** [run_all_scrapers] on the record lists of the configured scrapers. *)
Definition run_all_scrapers (db : Table) (sources : list (list RawServiceData))
    : Table * Stats :=
  foldl run_scraper (db, stats0) sources.

End Ingestion.
End Ingestion.

(** ** GeospatialService (src/backend/app/services/geospatial_service.py) *)

Module GeospatialService.

Global Instance Rle_decision (x y : R) : Decision (x <= y)%R := Rle_dec x y.
Global Instance Rlt_decision (x y : R) : Decision (x < y)%R := Rlt_dec x y.
Global Instance Req_decision : EqDecision R := Req_dec_T.

(** *** [math] *)

Definition radians (x : R) : R := (x * PI / 180)%R.

(** [math.atan2(y, x)]: the angle of the point [(x, y)], in [(-PI, PI]]. *)
Definition atan2 (y x : R) : R :=
  if decide (0 < x)%R then atan (y / x)
  else if decide (x < 0)%R then
    if decide (0 <= y)%R then (atan (y / x) + PI)%R else (atan (y / x) - PI)%R
  else if decide (0 < y)%R then (PI / 2)%R
  else if decide (y < 0)%R then (- PI / 2)%R
  else 0%R.

(** *** [datetime] *)

(** A [datetime.time] is always truthy. *)
Global Instance truthy_time : Truthy time := λ _, true.

(** [a <= b] on [datetime.time]. *)
Definition time_le (a b : time) : bool :=
  if decide (hour a < hour b) then true
  else if decide (hour b < hour a) then false
  else if decide (minute a < minute b) then true
  else if decide (minute b < minute a) then false
  else if decide (second a < second b) then true
  else if decide (second b < second a) then false
  else bool_decide (microsecond a ≤ microsecond b).

Inductive DayName :=
| Monday | Tuesday | Wednesday | Thursday | Friday | Saturday | Sunday.

(** What the code reads off [datetime.now()]. *)
Record datetime := {
  day_name : DayName;
  time_of_day : time
}.

(** [now.weekday()]: 0 = Monday, 6 = Sunday. *)
Definition weekday (now : datetime) : Z :=
  match day_name now with
  | Monday => 0 | Tuesday => 1 | Wednesday => 2 | Thursday => 3
  | Friday => 4 | Saturday => 5 | Sunday => 6
  end.

(** *** Distance *)

Definition haversine_distance (lat1 lon1 lat2 lon2 : R) : R :=
  let R_ := 6371000%R in
  let phi1 := radians lat1 in
  let phi2 := radians lat2 in
  let delta_phi := radians (lat2 - lat1) in
  let delta_lambda := radians (lon2 - lon1) in
  let a := (sin (delta_phi / 2) ^ 2 +
            cos phi1 * cos phi2 * sin (delta_lambda / 2) ^ 2)%R in
  let c := (2 * atan2 (sqrt a) (sqrt (1 - a)))%R in
  (R_ * c)%R.

(** *** Open now *)

(** The [for hours in today_hours] loop. *)
Fixpoint any_open (current_time : time) (today_hours : list OperatingHours)
    : bool :=
  match today_hours with
  | [] => false
  | hours :: rest =>
      if is_closed hours then any_open current_time rest
      else if is_24_hours hours then true
      else
        match open_time hours, close_time hours with
        | Some o, Some c =>
            if truthy o && truthy c && (time_le o current_time && time_le current_time c)
            then true
            else any_open current_time rest
        | _, _ => any_open current_time rest
        end
  end.

(** [_calculate_is_open_now], with the value of [datetime.now()] passed in. *)
Definition _calculate_is_open_now (now : datetime)
    (operating_hours_list : list OperatingHours) : bool :=
  if negb (truthy operating_hours_list) then false
  else
    let current_day := ((weekday now + 1) `mod` 7)%Z in
    let current_time := time_of_day now in
    let today_hours :=
      filter (λ h, day_of_week h = current_day) operating_hours_list in
    if negb (truthy today_hours) then false
    else any_open current_time today_hours.

(** *** Queries *)

Local Abbreviation Location := (ServiceLocation R).
Local Abbreviation Table := (list Location).
(** A loaded row: its primary key (the position in the table) and its value. *)
Local Abbreviation Ref := (nat * Location)%type.

(** [round(x, 2)]: the nearest multiple of 1/100, ties to the even one. *)
Definition round2 (x : R) : R :=
  let y := (x * 100)%R in
  let n := Int_part y in
  let f := frac_part y in
  (IZR (if decide (f < 1 / 2)%R then n
        else if decide (1 / 2 < f)%R then n + 1
        else if Z.even n then n else n + 1) / 100)%R.

(** [ServiceLocationResponse]; [services] and [operating_hours] repeat the
    loaded relationship rows. *)
Record ServiceLocationResponse := {
  resp_id : nat;
  resp_name : string;
  resp_description : option string;
  resp_latitude : option R;
  resp_longitude : option R;
  resp_distance_km : R;
  resp_street_address : option string;
  resp_borough : option string;
  resp_phone : option string;
  resp_services : list LocationService;
  resp_operating_hours : list OperatingHours;
  resp_is_open_now : bool
}.

Definition response (location : Ref) (distance_km : R) (is_open : bool)
    : ServiceLocationResponse :=
  {| resp_id := location.1;
     resp_name := name location.2;
     resp_description := description location.2;
     resp_latitude := latitude location.2;
     resp_longitude := longitude location.2;
     resp_distance_km := distance_km;
     resp_street_address := street_address location.2;
     resp_borough := borough location.2;
     resp_phone := phone location.2;
     resp_services := location_services location.2;
     resp_operating_hours := operating_hours location.2;
     resp_is_open_now := is_open |}.

(** The [where] clause shared by both queries. A comparison with a NULL
    coordinate does not hold. *)
Definition in_box (min_lat max_lat min_lon max_lon : R) (l : Location) : Prop :=
  deleted_at l = None ∧
  match latitude l, longitude l with
  | Some la, Some lo =>
      (min_lat <= la)%R ∧ (la <= max_lat)%R ∧
      (min_lon <= lo)%R ∧ (lo <= max_lon)%R
  | _, _ => False
  end.

#[global] Instance in_box_dec a b c d l : Decision (in_box a b c d l).
Proof. unfold in_box. destruct (latitude l), (longitude l); apply _. Defined.

(** The join with [location_services] and [service_types] filtered by
    [ServiceType.slug.in_(slugs)]: the location holds one of the slugs. *)
Definition has_service_type (slugs : list string) (l : Location) : Prop :=
  Exists (λ ls, service_type_slug ls ∈ slugs) (location_services l).

(** The first loop of [find_nearby]. *)
Fixpoint locations_with_distance (lat lon radius_km : R) (locations : list Ref)
    : list (Ref * R) :=
  match locations with
  | [] => []
  | location :: rest =>
      match latitude location.2, longitude location.2 with
      | Some la, Some lo =>
          let distance_meters := haversine_distance lat lon la lo in
          if decide (distance_meters <= radius_km * 1000)%R
          then (location, distance_meters)
                 :: locations_with_distance lat lon radius_km rest
          else locations_with_distance lat lon radius_km rest
      | _, _ => locations_with_distance lat lon radius_km rest
      end
  end.

(** [list.sort(key=...)] is stable: an element goes before the first one
    whose key is not smaller. *)
Fixpoint insert_by {A} (key : A → R) (x : A) (l : list A) : list A :=
  match l with
  | [] => [x]
  | y :: l' =>
      if decide (key x <= key y)%R then x :: y :: l'
      else y :: insert_by key x l'
  end.

Definition sort_by {A} (key : A → R) (l : list A) : list A :=
  foldr (insert_by key) [] l.

(** [l[:stop]] *)
Definition slice_to {A} (l : list A) (stop : Z) : list A :=
  if decide (0 ≤ stop)%Z then take (Z.to_nat stop) l
  else take (length l - Z.to_nat (- stop)) l.

(** The response loop of [find_nearby]. *)
Fixpoint nearby_responses (now : datetime) (open_now : bool)
    (locations : list (Ref * R)) : list ServiceLocationResponse :=
  match locations with
  | [] => []
  | (location, distance_meters) :: rest =>
      let is_open := _calculate_is_open_now now (operating_hours location.2) in
      if open_now && negb is_open then nearby_responses now open_now rest
      else response location (round2 (distance_meters / 1000)) is_open
             :: nearby_responses now open_now rest
  end.

(** The bounding box of [find_nearby]:
    [(min_lat, max_lat, min_lon, max_lon)]. *)
Definition bounding_box (lat lon radius_km : R) : R * R * R * R :=
  let lat_offset := (radius_km / 111)%R in
  let lon_offset := (radius_km / (111 * cos (radians lat)))%R in
  let min_lat := (lat - lat_offset)%R in
  let max_lat := (lat + lat_offset)%R in
  let min_lon := (lon - lon_offset)%R in
  let max_lon := (lon + lon_offset)%R in
  (min_lat, max_lat, min_lon, max_lon).

(** [find_nearby] up to the sort: the rows of the bounding box that lie
    within the radius, closest first. *)
Definition nearby_candidates (db : Table) (lat lon radius_km : R)
    (service_types : option (list string)) : list (Ref * R) :=
  let '(min_lat, max_lat, min_lon, max_lon) :=
    bounding_box lat lon radius_km in
  let locations :=
    match service_types with
    | Some ((_ :: _) as slugs) =>
        query_all (λ l, in_box min_lat max_lat min_lon max_lon l ∧
                        has_service_type slugs l) db
    | _ => query_all (in_box min_lat max_lat min_lon max_lon) db
    end in
  sort_by snd (locations_with_distance lat lon radius_km locations).

Definition find_nearby (now : datetime) (db : Table) (lat lon radius_km : R)
    (service_types : option (list string)) (open_now : bool) (limit : Z)
    : list ServiceLocationResponse :=
  let safe_limit := (limit `min` 500)%Z in
  let locations_with_distance :=
    slice_to (nearby_candidates db lat lon radius_km service_types) safe_limit in
  nearby_responses now open_now locations_with_distance.

(** What a call can raise. *)
Inductive Error :=
| HTTPException (status_code : Z) (detail : string)
| TypeError (unexpected_keyword : string)
| DBAPIError.

(** The response loop of [find_in_bounds]. *)
Fixpoint bounds_responses (now : datetime) (open_now : bool)
    (center : option (R * R)) (locations : list Ref)
    : list ServiceLocationResponse :=
  match locations with
  | [] => []
  | location :: rest =>
      match latitude location.2, longitude location.2 with
      | Some la, Some lo =>
          let is_open :=
            _calculate_is_open_now now (operating_hours location.2) in
          if open_now && negb is_open
          then bounds_responses now open_now center rest
          else
            let distance_km :=
              match center with
              | Some (center_lat, center_lng) =>
                  (haversine_distance center_lat center_lng la lo / 1000)%R
              | None => 0%R
              end in
            response location distance_km is_open
              :: bounds_responses now open_now center rest
      | _, _ => bounds_responses now open_now center rest
      end
  end.

(** [distance_expr], on a row inside the box. *)
Definition distance_expr (center_lat center_lng : R) (r : Ref) : R :=
  match latitude r.2, longitude r.2 with
  | Some la, Some lo => sqrt ((la - center_lat) ^ 2 + (lo - center_lng) ^ 2)
  | _, _ => 0%R
  end.

(** The parameters of [def find_in_bounds(self, ...)]. *)
Definition find_in_bounds_parameters : list string :=
  ["min_lat"; "max_lat"; "min_lng"; "max_lng"; "center_lat"; "center_lng";
   "service_types"; "exclude_service_types"; "open_now"; "limit"]%string.

(** The body of [find_in_bounds]. Rows are ordered by primary key in table
    order; PostgreSQL rejects a negative [LIMIT]. *)
Definition find_in_bounds (now : datetime) (db : Table)
    (min_lat max_lat min_lng max_lng : R) (center_lat center_lng : option R)
    (service_types exclude_service_types : option (list string))
    (open_now : bool) (limit : Z) : result Error (list ServiceLocationResponse) :=
  let safe_limit := (limit `min` 100)%Z in
  let center :=
    match center_lat, center_lng with
    | Some a, Some b => Some (a, b)
    | _, _ => None
    end in
  let ordered rows :=
    match center with
    | Some (a, b) => sort_by (distance_expr a b) rows
    | None => rows
    end in
  let rows :=
    match service_types, exclude_service_types with
    | Some ((_ :: _) as slugs), _ =>
        query_all (λ l, in_box min_lat max_lat min_lng max_lng l ∧
                        has_service_type slugs l) db
    | _, Some ((_ :: _) as slugs) =>
        ordered (query_all (λ l, in_box min_lat max_lat min_lng max_lng l ∧
                                 ¬ has_service_type slugs l) db)
    | _, _ => ordered (query_all (in_box min_lat max_lat min_lng max_lng) db)
    end in
  if decide (safe_limit < 0)%Z then Raise DBAPIError
  else Return (bounds_responses now open_now center
                 (take (Z.to_nat safe_limit) rows)).

End GeospatialService.

(** ** The in-bounds endpoint (src/backend/app/routers/public.py) *)

Module Router.
Import GeospatialService.

(** A call [f(k1=v1, ..., kn=vn)]: a keyword that is not a parameter of [f]
    raises [TypeError] before the body of [f] runs. *)
Definition call_with_keywords {A} (parameters keywords : list string)
    (body : result Error A) : result Error A :=
  match list_find (λ k, k ∉ parameters) keywords with
  | Some (_, k) => Raise (TypeError k)
  | None => body
  end.

(** The handler [get_services_in_bounds], on the parameters FastAPI has
    parsed from the query string. *)
Definition get_services_in_bounds (now : datetime)
    (db : list (ServiceLocation R))
    (min_lat max_lat min_lng max_lng : R) (center_lat center_lng : option R)
    (service_types exclude_service_types : option (list string))
    (open_now open_today : bool) (limit : Z)
    : result Error (list ServiceLocationResponse) :=
  if decide (min_lat >= max_lat)%R then
    Raise (HTTPException 400 "min_lat must be less than max_lat")
  else if decide (min_lng >= max_lng)%R then
    Raise (HTTPException 400 "min_lng must be less than max_lng")
  else
    call_with_keywords find_in_bounds_parameters
      ["min_lat"; "max_lat"; "min_lng"; "max_lng"; "center_lat"; "center_lng";
       "service_types"; "exclude_service_types"; "open_now"; "open_today";
       "limit"]%string
      (find_in_bounds now db min_lat max_lat min_lng max_lng
         center_lat center_lng service_types exclude_service_types
         open_now limit).

End Router.

(** ** The open-now rule as the specification words it *)

Module OpenNowSpec.
Import GeospatialService.

(** Day of the week, 0 = Sunday .. 6 = Saturday. *)
Definition sunday_based (d : DayName) : Z :=
  match d with
  | Sunday => 0 | Monday => 1 | Tuesday => 2 | Wednesday => 3
  | Thursday => 4 | Friday => 5 | Saturday => 6
  end.

(** [openTime <= at <= closeTime], both ends included. *)
Definition within_hours (at_ : time) (e : OperatingHours) : bool :=
  match open_time e, close_time e with
  | Some o, Some c => time_le o at_ && time_le at_ c
  | _, _ => false
  end.

(** The per-entry test in the words of the claim: 24 hours, or not closed
    and within the hours. *)
Definition entry_open_claimed (at_ : time) (e : OperatingHours) : bool :=
  is_24_hours e || (negb (is_closed e) && within_hours at_ e).

(** The per-entry test of the code: a closed entry is skipped first. *)
Definition entry_open (at_ : time) (e : OperatingHours) : bool :=
  negb (is_closed e) && (is_24_hours e || within_hours at_ e).

(** Entries of the day; none gives false; otherwise the union of the tests. *)
Definition is_open_now (test : time → OperatingHours → bool)
    (entries : list OperatingHours) (at_ : datetime) : bool :=
  let today :=
    filter (λ e, day_of_week e = sunday_based (day_name at_)) entries in
  match today with
  | [] => false
  | _ => existsb (test (time_of_day at_)) today
  end.

End OpenNowSpec.

(** ** What the claims say of the ingestion loop *)

Module IngestionSpec.
Import Deduplicator.

(** The upstream identity stored on a row. *)
Definition identity {F} (l : ServiceLocation F) : option string * option string :=
  (external_id l, data_source l).

Definition identities {F} (db : list (ServiceLocation F))
    : list (option string * option string) :=
  identity <$> db.

(** Some stored row carries the identity of the record. *)
Definition has_identity {F} (db : list (ServiceLocation F))
    (raw : RawServiceData) : Prop :=
  (Some (raw_external_id raw), Some (raw_data_source raw)) ∈ identities db.

End IngestionSpec.

(** ** What the claims say of [find_nearby] *)

Module NearbySpec.
Import GeospatialService.

(** The prefilter of [find_nearby] keeps the row. *)
Definition in_prefilter (lat lon radius_km : R) (l : ServiceLocation R) : Prop :=
  let '(min_lat, max_lat, min_lon, max_lon) :=
    bounding_box lat lon radius_km in
  in_box min_lat max_lat min_lon max_lon l.

(** The haversine distance of a returned location from the query center. *)
Definition center_distance (lat lon : R) (r : ServiceLocationResponse) : R :=
  match resp_latitude r, resp_longitude r with
  | Some la, Some lo => haversine_distance lat lon la lo
  | _, _ => 0%R
  end.

Definition closer (lat lon : R) (r1 r2 : ServiceLocationResponse) : Prop :=
  (center_distance lat lon r1 <= center_distance lat lon r2)%R.

(** A candidate is open now. *)
Definition open_candidate (now : datetime)
    (c : nat * ServiceLocation R * R) : Prop :=
  _calculate_is_open_now now (operating_hours c.1.2) = true.

#[global] Instance open_candidate_dec now c : Decision (open_candidate now c).
Proof. unfold open_candidate. apply _. Defined.

(** Ascending order of keys. *)
Definition by_key {A} (key : A → R) (x y : A) : Prop := (key x <= key y)%R.

(** The response built for a candidate. *)
Definition response_of (now : datetime) (c : nat * ServiceLocation R * R)
    : ServiceLocationResponse :=
  response c.1 (round2 (c.2 / 1000))
    (_calculate_is_open_now now (operating_hours c.1.2)).

(** The candidates the response loop keeps. *)
Definition kept (now : datetime) (open_now : bool)
    (c : nat * ServiceLocation R * R) : Prop :=
  open_now = true → open_candidate now c.

#[global] Instance kept_dec now open_now c : Decision (kept now open_now c).
Proof. unfold kept. apply _. Defined.

(** A candidate carries the distance of its coordinates from the center,
    and that distance is within the radius. *)
Definition measured (lat lon radius_km : R)
    (c : nat * ServiceLocation R * R) : Prop :=
  ∃ la lo, latitude c.1.2 = Some la ∧ longitude c.1.2 = Some lo ∧
           c.2 = haversine_distance lat lon la lo ∧
           (c.2 <= radius_km * 1000)%R.

(** A returned location lies within the radius. *)
Definition within_radius (lat lon radius_km : R)
    (r : ServiceLocationResponse) : Prop :=
  ∃ la lo, resp_latitude r = Some la ∧ resp_longitude r = Some lo ∧
           (haversine_distance lat lon la lo <= radius_km * 1000)%R.

(** The result for [open_now] as the claim words it: the closest
    min(limit, 500) of the open candidates within the radius. *)
Definition closest_open (now : datetime) (db : list (ServiceLocation R))
    (lat lon radius_km : R) (service_types : option (list string))
    (limit : Z) : list ServiceLocationResponse :=
  nearby_responses now true
    (slice_to (filter (open_candidate now)
                 (nearby_candidates db lat lon radius_km service_types))
              (limit `min` 500)%Z).

End NearbySpec.

(** ** Concrete data for the examples *)

Module Examples.
Import GeospatialService.

(** A string library for the examples, which only compare equal strings
    ([SequenceMatcher(None, a, a).ratio()] is 1.0) or need no ratio at all:
    [lower] is the identity and unequal strings get ratio 0. *)
Definition exact_lib : StrLib :=
  {| lower := λ s, s;
     ratio := λ a b, if decide (a = b) then 1%Q else 0%Q |}.

Definition at_ (d : DayName) (h m : nat) : datetime :=
  {| day_name := d; time_of_day := mk_time h m 0 0 |}.

Definition nine_to_five : OperatingHours :=
  {| day_of_week := 1; open_time := Some (mk_time 9 0 0 0);
     close_time := Some (mk_time 17 0 0 0);
     is_24_hours := false; is_closed := false; notes := None |}.

(** An entry flagged both closed and 24 hours. *)
Definition closed_all_day : OperatingHours :=
  {| day_of_week := 1; open_time := None; close_time := None;
     is_24_hours := true; is_closed := true; notes := None |}.

(** A stored shelter, wheelchair accessible and soft-deleted, with integer
    coordinates. *)
Definition stored_shelter : ServiceLocation Z :=
  {| name := "Hope Shelter"; description := Some "Beds"%string;
     organization_name := None; street_address := Some "1 Main St"%string;
     city := Some "New York"%string; state := Some "NY"%string;
     zip_code := None; borough := Some "Bronx"%string;
     latitude := Some 40%Z; longitude := Some (-73)%Z;
     phone := Some "555-0100"%string; website := None;
     wheelchair_accessible := Some true; languages_spoken := None;
     data_source := Some "NYC Open Data"%string;
     external_id := Some "shelter-1"%string;
     verified := Some false; deleted_at := Some 1700000000%Z;
     location_services := []; operating_hours := [] |}.

(** The same shelter as a source reports it: no longer accessible, a new
    phone number, no description. *)
Definition scraped_shelter : RawServiceData :=
  {| raw_name := "Hope Shelter"; raw_organization_name := None;
     raw_description := None; raw_street_address := Some "1 Main St"%string;
     raw_city := "New York"; raw_state := "NY"; raw_zip_code := None;
     raw_borough := Some "Bronx"%string; raw_phone := Some "555-0199"%string;
     raw_website := None; raw_service_types := ["shelter"%string];
     raw_wheelchair_accessible := Some false; raw_languages_spoken := None;
     raw_external_id := "shelter-1"; raw_data_source := "NYC Open Data" |}.

(** A record without an upstream identifier and without a borough. *)
Definition anonymous_pantry : RawServiceData :=
  {| raw_name := "Corner Pantry"; raw_organization_name := None;
     raw_description := None; raw_street_address := Some "2 Side St"%string;
     raw_city := "New York"; raw_state := "NY"; raw_zip_code := None;
     raw_borough := None; raw_phone := None;
     raw_website := None; raw_service_types := ["food"%string];
     raw_wheelchair_accessible := None; raw_languages_spoken := None;
     raw_external_id := ""; raw_data_source := "Manual" |}.

(** The stored shelter before it was soft-deleted, known under another
    upstream identifier. *)
Definition live_shelter : ServiceLocation Z :=
  {| name := "Hope Shelter"; description := Some "Beds"%string;
     organization_name := None; street_address := Some "1 Main St"%string;
     city := Some "New York"%string; state := Some "NY"%string;
     zip_code := None; borough := Some "Bronx"%string;
     latitude := Some 40%Z; longitude := Some (-73)%Z;
     phone := Some "555-0100"%string; website := None;
     wheelchair_accessible := Some true; languages_spoken := None;
     data_source := Some "Manual Entry"%string;
     external_id := None;
     verified := Some true; deleted_at := None;
     location_services := []; operating_hours := [] |}.

Definition always_open : OperatingHours :=
  {| day_of_week := 1; open_time := None; close_time := None;
     is_24_hours := true; is_closed := false; notes := None |}.

(** A place at the given coordinates with the given schedule. *)
Definition place_at (la lo : R) (n : string) (hours : list OperatingHours)
    : ServiceLocation R :=
  {| name := n; description := None;
     organization_name := None; street_address := None;
     city := None; state := None; zip_code := None; borough := None;
     latitude := Some la; longitude := Some lo;
     phone := None; website := None;
     wheelchair_accessible := None; languages_spoken := None;
     data_source := None; external_id := None;
     verified := None; deleted_at := None;
     location_services := []; operating_hours := hours |}.

(** A place at latitude 0, longitude 0. *)
Definition place : string → list OperatingHours → ServiceLocation R :=
  place_at 0 0.

(** A closed place at the query center and an open one a thousandth of a
    degree to the north. *)
Definition near_closed : ServiceLocation R := place "Closed kitchen" [].
Definition far_open : ServiceLocation R :=
  place_at (1 / 1000) 0 "Open kitchen" [always_open].

(** A geocoder that places every record at the same point. *)
Definition fixed_geocoder : RawServiceData → option (Z * Z) :=
  λ _, Some (40, -73)%Z.

End Examples.

(** ** BaseScraper (src/scraper/scraper/sources/base.py) *)

Module BaseScraper.

Definition validate_result (data : RawServiceData) : bool :=
  if negb (truthy (raw_name data)) then false
  else if negb (truthy (raw_street_address data)) then false
  else if negb (truthy (raw_service_types data)) then false
  else true.

(** [run], on the outcome of [await self.scrape()]: the list scraped, or
    the exception raised. *)
Definition run {E} (scrape : result E (list RawServiceData))
    : list RawServiceData :=
  match scrape with
  | Return raw_data => filter (λ d, validate_result d = true) raw_data
  | Raise _ => []
  end.

End BaseScraper.

(** ** Geocoder (src/scraper/scraper/processors/geocoding.py) *)

Module Geocoder.

(** The dictionary of [_borough_center]. *)
Definition borough_centers : gmap string (Q * Q) :=
  list_to_map
    [("Manhattan"%string, (407831 # 10000, - 739712 # 10000)%Q);
     ("Brooklyn"%string, (406782 # 10000, - 739442 # 10000)%Q);
     ("Queens"%string, (407282 # 10000, - 737949 # 10000)%Q);
     ("Bronx"%string, (408448 # 10000, - 738648 # 10000)%Q);
     ("Staten Island"%string, (405795 # 10000, - 741502 # 10000)%Q)].

Definition _borough_center (borough : string) : option (Q * Q) :=
  borough_centers !! borough.

Section Geocoder.
(** The Nominatim request of [geocode] for the query [q]: the coordinates
    of the first hit when the service answers 200 with a non-empty list,
    [None] on any other answer and when the request raises. *)
Context (nominatim : string → option (Q * Q)).

Definition geocode (address : option string) (city state : string)
    : option (Q * Q) :=
  match address with
  | Some a =>
      if negb (truthy a) then None
      else
        let full_address := (a ++ ", " ++ city ++ ", " ++ state)%string in
        nominatim full_address
  | None => None
  end.

Definition geocode_with_fallback (address : option string)
    (city state : string) (zip_code borough : option string)
    : option (Q * Q) :=
  match geocode address city state with
  | Some coords => Some coords
  | None =>
      match (if truthy zip_code then geocode zip_code city state else None) with
      | Some coords => Some coords
      | None =>
          match borough with
          | Some b => if truthy b then _borough_center b else None
          | None => None
          end
      end
  end.


End Geocoder.
End Geocoder.

(** ** Deduplicator: services and operating hours
       (src/scraper/scraper/processors/deduplication.py) *)

Module DeduplicatorTables.

(** scraper [ServiceCapacity] *)
Record ServiceCapacity := {
  cap_service_type : string;
  cap_capacity : option Z;
  cap_notes : option string
}.

(** A row of [service_types]. *)
Record ServiceType := {
  st_id : Z;
  st_name : string;
  st_slug : string;
  st_sort_order : option Z;
  st_active : option bool
}.

(** A row of [location_services]. *)
Record LocationServiceRow := {
  row_location_id : nat;
  row_service_type_id : Z;
  row_capacity : option Z;
  row_notes : option string
}.

(** A row of [operating_hours]: the owner, the service type and the entry. *)
Record OperatingHoursRow := {
  hours_location_id : nat;
  hours_service_type_id : option Z;
  hours_entry : OperatingHours
}.

(** The three tables the two functions read and write. *)
Record Tables := {
  t_service_types : list ServiceType;
  t_location_services : list LocationServiceRow;
  t_operating_hours : list OperatingHoursRow
}.

(** [capacity_map]: a later capacity for a slug replaces an earlier one. *)
Definition capacity_map (service_capacities : option (list ServiceCapacity))
    : gmap string ServiceCapacity :=
  match service_capacities with
  | Some ((_ :: _) as caps) =>
      foldl (λ m cap, <[cap_service_type cap := cap]> m) ∅ caps
  | _ => ∅
  end.

Definition add_services (tb : Tables) (location_id : nat)
    (service_type_slugs : list string)
    (service_capacities : option (list ServiceCapacity)) : Tables :=
  let service_types :=
    filter (λ st, st_slug st ∈ service_type_slugs) (t_service_types tb) in
  let remaining :=
    filter (λ r, row_location_id r ≠ location_id) (t_location_services tb) in
  let capacity_map := capacity_map service_capacities in
  let added :=
    (λ service_type,
       let capacity_data := capacity_map !! st_slug service_type in
       {| row_location_id := location_id;
          row_service_type_id := st_id service_type;
          row_capacity := capacity_data ≫= cap_capacity;
          row_notes := capacity_data ≫= cap_notes |}) <$> service_types in
  {| t_service_types := t_service_types tb;
     t_location_services := remaining ++ added;
     t_operating_hours := t_operating_hours tb |}.

(** The keys of a dictionary built by inserting the keys [ks] in order. *)
Definition dict_keys (ks : list Z) : list Z :=
  foldl (λ seen k, if decide (k ∈ seen) then seen else seen ++ [k]) [] ks.

Definition add_operating_hours (tb : Tables) (location_id : nat)
    (operating_hours_list : option (list OperatingHours)) : Tables :=
  match operating_hours_list with
  | Some ((_ :: _) as hours_list) =>
      let location_services :=
        filter (λ r, row_location_id r = location_id)
               (t_location_services tb) in
      let service_map_keys :=
        dict_keys (row_service_type_id <$> location_services) in
      match service_map_keys with
      | [] => tb
      | _ :: _ =>
          let remaining :=
            filter (λ r, hours_location_id r ≠ location_id)
                   (t_operating_hours tb) in
          let added :=
            hours_data ← hours_list;
            (λ service_type_id,
               {| hours_location_id := location_id;
                  hours_service_type_id := Some service_type_id;
                  hours_entry := hours_data |}) <$> service_map_keys in
          {| t_service_types := t_service_types tb;
             t_location_services := t_location_services tb;
             t_operating_hours := remaining ++ added |}
      end
  | _ => tb
  end.

(** What [selectinload(ServiceLocation.operating_hours)] loads for a row. *)
Definition loaded_operating_hours (tb : Tables) (location_id : nat)
    : list OperatingHours :=
  hours_entry <$>
    filter (λ r, hours_location_id r = location_id) (t_operating_hours tb).

End DeduplicatorTables.

(** ** Vocabulary for the properties of the two queries *)

Module QuerySpec.
Import GeospatialService.

(** The rows the query of [find_nearby] selects: inside the box, not
    deleted and, with a non-empty category filter, holding one of the
    categories. *)
Definition selected (lat lon radius_km : R)
    (service_types : option (list string)) (l : ServiceLocation R) : Prop :=
  NearbySpec.in_prefilter lat lon radius_km l ∧
  match service_types with
  | Some ((_ :: _) as slugs) => has_service_type slugs l
  | _ => True
  end.

(** The category condition of [find_in_bounds]: a non-empty inclusion
    list selects, otherwise a non-empty exclusion list excludes. *)
Definition category_rule (service_types exclude_service_types
    : option (list string)) (l : ServiceLocation R) : Prop :=
  match service_types, exclude_service_types with
  | Some ((_ :: _) as slugs), _ => has_service_type slugs l
  | _, Some ((_ :: _) as slugs) => ¬ has_service_type slugs l
  | _, _ => True
  end.

(** The response [find_in_bounds] builds for a loaded row. *)
Definition bounds_response_of (now : datetime) (center : option (R * R))
    (loc : nat * ServiceLocation R) : ServiceLocationResponse :=
  response loc
    match center, latitude loc.2, longitude loc.2 with
    | Some (center_lat, center_lng), Some la, Some lo =>
        (haversine_distance center_lat center_lng la lo / 1000)%R
    | _, _, _ => 0%R
    end
    (_calculate_is_open_now now (operating_hours loc.2)).

(** The loaded rows the response loop of [find_in_bounds] keeps. *)
Definition bounds_kept (now : datetime) (open_now : bool)
    (loc : nat * ServiceLocation R) : Prop :=
  is_Some (latitude loc.2) ∧ is_Some (longitude loc.2) ∧
  (open_now = true →
   _calculate_is_open_now now (operating_hours loc.2) = true).

#[global] Instance bounds_kept_dec now open_now loc :
  Decision (bounds_kept now open_now loc).
Proof. unfold bounds_kept. apply _. Defined.

(** The distance [find_in_bounds] orders by, read off a response: the
    Euclidean distance in degrees. *)
Definition degree_distance (center_lat center_lng : R)
    (r : ServiceLocationResponse) : R :=
  match resp_latitude r, resp_longitude r with
  | Some la, Some lo => sqrt ((la - center_lat) ^ 2 + (lo - center_lng) ^ 2)
  | _, _ => 0%R
  end.

End QuerySpec.

(** ** Vocabulary for the properties of the stored tables *)

Module StoreSpec.
Import DeduplicatorTables.

(** The columns of a stored location that [create_or_update] leaves as
    they are: the upstream identity, the address, the verification flag
    and the soft-delete mark. *)
Definition same_fixed_columns {F} (l l' : ServiceLocation F) : Prop :=
  external_id l' = external_id l ∧ data_source l' = data_source l ∧
  street_address l' = street_address l ∧ city l' = city l ∧
  state l' = state l ∧ zip_code l' = zip_code l ∧ borough l' = borough l ∧
  verified l' = verified l ∧ deleted_at l' = deleted_at l.

(** Every row of [db] is still at its position in [db'], with the same
    fixed columns. *)
Definition extends {F} (db db' : list (ServiceLocation F)) : Prop :=
  length db ≤ length db' ∧
  ∀ i l, db !! i = Some l →
         ∃ l', db' !! i = Some l' ∧ same_fixed_columns l l'.

(** The rows of a location in [location_services] and [operating_hours]. *)
Definition services_of (tb : Tables) (location_id : nat)
    : list LocationServiceRow :=
  filter (λ r, row_location_id r = location_id) (t_location_services tb).

Definition hours_of (tb : Tables) (location_id : nat)
    : list OperatingHoursRow :=
  filter (λ r, hours_location_id r = location_id) (t_operating_hours tb).

(** The service types the slugs name. *)
Definition named_service_types (tb : Tables) (slugs : list string)
    : list ServiceType :=
  filter (λ st, st_slug st ∈ slugs) (t_service_types tb).

(** The last capacity given for a slug. *)
Definition last_capacity (service_capacities : option (list ServiceCapacity))
    (slug : string) : option ServiceCapacity :=
  last (filter (λ c, cap_service_type c = slug) (default [] service_capacities)).

(** The names [_borough_center] knows. *)
Definition known_boroughs : list string :=
  ["Manhattan"; "Brooklyn"; "Queens"; "Bronx"; "Staten Island"]%string.

End StoreSpec.

(** ** More concrete data *)

Module Examples2.
Import GeospatialService DeduplicatorTables.

(** Hours from 22:00 to 02:00. *)
Definition ten_to_two : OperatingHours :=
  {| day_of_week := 1; open_time := Some (mk_time 22 0 0 0);
     close_time := Some (mk_time 2 0 0 0);
     is_24_hours := false; is_closed := false; notes := None |}.

(** A place at latitude 0, longitude 0 that offers food. *)
Definition food_place : ServiceLocation R :=
  {| name := "Kitchen"; description := None;
     organization_name := None; street_address := None;
     city := None; state := None; zip_code := None; borough := None;
     latitude := Some 0%R; longitude := Some 0%R;
     phone := None; website := None;
     wheelchair_accessible := None; languages_spoken := None;
     data_source := None; external_id := None;
     verified := None; deleted_at := None;
     location_services :=
       [ {| service_type_slug := "food"; service_type_name := "Food";
            ls_notes := None; ls_capacity := None |} ];
     operating_hours := [] |}.

(** A Nominatim that answers no request. *)
Definition offline : string → option (Q * Q) := λ _, None.

(** Two service types, and location 0 offering the second. *)
Definition catalog : Tables :=
  {| t_service_types :=
       [ {| st_id := 1; st_name := "Food"; st_slug := "food";
            st_sort_order := None; st_active := Some true |};
         {| st_id := 2; st_name := "Shelter"; st_slug := "shelter";
            st_sort_order := None; st_active := Some true |} ];
     t_location_services :=
       [ {| row_location_id := 0; row_service_type_id := 2;
            row_capacity := None; row_notes := None |} ];
     t_operating_hours := [] |}.

End Examples2.

(** * Properties *)

(** ** Open now *)

Module OpenNowProofs.
Import GeospatialService OpenNowSpec Examples.

Lemma weekday_sunday_based now :
  ((weekday now + 1) `mod` 7)%Z = sunday_based (day_name now).
Proof. unfold weekday. by destruct (day_name now). Qed.

Lemma any_open_existsb t l : any_open t l = existsb (entry_open t) l.
Proof.
  induction l as [|h l IH]; [done|]. simpl. unfold entry_open at 1, within_hours.
  destruct (is_closed h); simpl; [done|].
  destruct (is_24_hours h); simpl; [done|].
  destruct (open_time h), (close_time h); simpl; try done.
  by destruct (time_le _ _ && time_le _ _).
Qed.

(** C2, as the claim words it, fails: an entry of the day flagged both
    closed and 24 hours is skipped by the code, while the claimed rule
    counts it as open. *)
Lemma open_now_closed_wins :
  _calculate_is_open_now (at_ Monday 12 0) [closed_all_day]
  ≠ is_open_now entry_open_claimed [closed_all_day] (at_ Monday 12 0).
Proof. by vm_compute. Qed.

(** C2 (amended): the open-now evaluation restricts the entries to the
    timestamp's day of the week (0 = Sunday .. 6 = Saturday), is false when
    there is none, and otherwise is true exactly when some entry of the day
    is not closed and is either 24 hours or has
    [openTime <= time <= closeTime], both ends included; entries of a day
    are unioned. A 09:00-17:00 entry is open at 09:00 and 17:00 and closed
    at 08:59 and 17:01. *)
Theorem open_now_rule :
  (∀ now entries,
     _calculate_is_open_now now entries = is_open_now entry_open entries now) ∧
  _calculate_is_open_now (at_ Monday 9 0) [nine_to_five] = true ∧
  _calculate_is_open_now (at_ Monday 17 0) [nine_to_five] = true ∧
  _calculate_is_open_now (at_ Monday 8 59) [nine_to_five] = false ∧
  _calculate_is_open_now (at_ Monday 17 1) [nine_to_five] = false.
Proof.
  split; [|by repeat split].
  intros now entries. unfold _calculate_is_open_now, is_open_now.
  rewrite weekday_sunday_based, any_open_existsb.
  destruct entries as [|e entries]; [done|]. simpl negb. cbv iota.
  by destruct (filter _ _).
Qed.

End OpenNowProofs.

(** ** Deduplicator *)

Module DeduplicatorProofs.
Import Deduplicator Examples.

Section proofs.
Context {F : Type} {lib : StrLib}.
Implicit Types (db : list (ServiceLocation F)) (raw : RawServiceData).
Implicit Types (l c existing : ServiceLocation F).

Lemma elem_of_query_all (P : ServiceLocation F → Prop)
    `{!∀ l, Decision (P l)} db i l :
  (i, l) ∈ query_all P db ↔ db !! i = Some l ∧ P l.
Proof.
  unfold query_all. rewrite list_elem_of_filter. simpl. split.
  - intros [HP (j & y & Heq & Hl)%elem_of_lookup_imap_1]. by simplify_eq.
  - intros [Hl HP]. split; [done|]. by apply (elem_of_lookup_imap_2 pair).
Qed.

Lemma Qgtb_true x y : Qgtb x y = true ↔ (y < x)%Q.
Proof.
  unfold Qgtb. rewrite (Qgt_alt x y). by destruct (x ?= y)%Q.
Qed.

Lemma high_confidence_true raw c :
  high_confidence raw c = true ↔
  (85 # 100 < name_similarity raw c)%Q ∧ (8 # 10 < address_similarity raw c)%Q.
Proof. unfold high_confidence. by rewrite andb_true_iff, !Qgtb_true. Qed.

Lemma identity_match_Some db raw i l :
  identity_match db raw = Some (i, l) ↔
  truthy (raw_external_id raw) = true ∧ truthy (raw_data_source raw) = true ∧
  db !! i = Some l ∧ same_identity raw l ∧
  ∀ j y, db !! j = Some y → j < i → ¬ same_identity raw y.
Proof.
  unfold identity_match, query_first.
  destruct (truthy (raw_external_id raw)), (truthy (raw_data_source raw));
    simpl; rewrite ?list_find_Some; intuition congruence.
Qed.

Lemma fuzzy_match_Some db raw i c :
  fuzzy_match db raw = Some (i, c) →
  db !! i = Some c ∧ borough_candidate raw c ∧ high_confidence raw c = true.
Proof.
  unfold fuzzy_match. destruct (truthy (raw_borough raw)); [|done].
  intros ([k [j c']] & Hfind & ?)%fmap_Some. simplify_eq/=.
  apply list_find_Some in Hfind as (Hin%list_elem_of_lookup_2 & Hhc & _).
  apply elem_of_query_all in Hin as [??]. done.
Qed.

Lemma fuzzy_match_None db raw :
  (∀ i c, db !! i = Some c → borough_candidate raw c →
          high_confidence raw c = false) →
  fuzzy_match db raw = None.
Proof.
  intros Hno. unfold fuzzy_match. destruct (truthy (raw_borough raw)); [|done].
  apply fmap_None, list_find_None, Forall_forall.
  intros [i c] [??]%elem_of_query_all. simpl. rewrite (Hno i c); done.
Qed.

Lemma find_match_lookup db raw i l :
  find_match db raw = Some (i, l) → db !! i = Some l.
Proof.
  unfold find_match. destruct (identity_match db raw) as [[j m]|] eqn:Hid.
  - intros ?; simplify_eq. by apply identity_match_Some in Hid as (_&_&?&_).
  - by intros (?&_)%fuzzy_match_Some.
Qed.

(** C3: with no identity match, [find_match] returns a candidate only if it
    is a stored, non-deleted row of the record's borough whose name ratio
    is strictly above 0.85 and whose street-address ratio is strictly above
    0.8; a candidate at or below either threshold (in particular at exactly
    0.85 and 0.80) is not accepted; and when no candidate of the borough
    clears both thresholds the result is [None]. *)
Theorem fuzzy_match_strict_thresholds db raw :
  (∀ i c, identity_match db raw = None → find_match db raw = Some (i, c) →
     db !! i = Some c ∧ deleted_at c = None ∧ borough c = raw_borough raw ∧
     (85 # 100 < name_similarity raw c)%Q ∧
     (8 # 10 < address_similarity raw c)%Q) ∧
  (∀ c, (name_similarity raw c <= 85 # 100)%Q ∨
        (address_similarity raw c <= 8 # 10)%Q →
     high_confidence raw c = false) ∧
  (∀ c, (name_similarity raw c == 85 # 100)%Q →
        (address_similarity raw c == 8 # 10)%Q →
     high_confidence raw c = false) ∧
  (identity_match db raw = None →
   (∀ i c, db !! i = Some c → deleted_at c = None →
           borough c = raw_borough raw →
           ¬ ((85 # 100 < name_similarity raw c)%Q ∧
              (8 # 10 < address_similarity raw c)%Q)) →
   find_match db raw = None).
Proof.
  assert (Hbelow : ∀ c, (name_similarity raw c <= 85 # 100)%Q ∨
                        (address_similarity raw c <= 8 # 10)%Q →
                        high_confidence raw c = false).
  { intros c Hle. apply not_true_is_false.
    intros [??]%high_confidence_true. destruct Hle as [Hle|Hle];
      apply Qle_not_lt in Hle; contradiction. }
  split_and!; [|done| |].
  - intros i c Hid. unfold find_match. rewrite Hid.
    intros (Hl & [Hb Hd] & Hhc)%fuzzy_match_Some.
    by apply high_confidence_true in Hhc as [??].
  - intros c Hn _. apply Hbelow. left. rewrite Hn. apply Qle_refl.
  - intros Hid Hno. unfold find_match. rewrite Hid.
    apply fuzzy_match_None. intros i c Hl [Hb Hd].
    apply not_true_is_false. intros ?%high_confidence_true. by eapply Hno.
Qed.

Lemma find_match_identity db raw i l :
  truthy (raw_external_id raw) = true → truthy (raw_data_source raw) = true →
  db !! i = Some l → same_identity raw l →
  (∀ j y, db !! j = Some y → j < i → ¬ same_identity raw y) →
  find_match db raw = Some (i, l).
Proof.
  intros. unfold find_match.
  by rewrite (proj2 (identity_match_Some db raw i l)).
Qed.

Lemma or_truthy `{Truthy A} (x y : A) : truthy x = true → or_ x y = x.
Proof. unfold or_. by intros ->. Qed.

(** C7 (amended): when [create_or_update] finds a match, the stored row is
    replaced in place; its name and coordinates are those of the incoming
    record unconditionally; each of description, organization, phone,
    website, accessibility and languages equals the incoming value when
    that value is truthy (a non-empty string or list, [True]), and keeps
    the stored value when the incoming value is absent. *)
Theorem update_overwrites_truthy_fields db raw i existing lat lon :
  find_match db raw = Some (i, existing) →
  ∃ l,
    create_or_update db raw (Some (lat, lon)) = Return (<[i := l]> db, (i, l)) ∧
    <[i := l]> db !! i = Some l ∧
    length (<[i := l]> db) = length db ∧
    name l = raw_name raw ∧ latitude l = Some lat ∧ longitude l = Some lon ∧
    (truthy (raw_description raw) = true →
       description l = raw_description raw) ∧
    (truthy (raw_organization_name raw) = true →
       organization_name l = raw_organization_name raw) ∧
    (truthy (raw_phone raw) = true → phone l = raw_phone raw) ∧
    (truthy (raw_website raw) = true → website l = raw_website raw) ∧
    (truthy (raw_wheelchair_accessible raw) = true →
       wheelchair_accessible l = raw_wheelchair_accessible raw) ∧
    (truthy (raw_languages_spoken raw) = true →
       languages_spoken l = raw_languages_spoken raw) ∧
    (raw_description raw = None → description l = description existing) ∧
    (raw_organization_name raw = None →
       organization_name l = organization_name existing) ∧
    (raw_phone raw = None → phone l = phone existing) ∧
    (raw_website raw = None → website l = website existing) ∧
    (raw_wheelchair_accessible raw = None →
       wheelchair_accessible l = wheelchair_accessible existing) ∧
    (raw_languages_spoken raw = None →
       languages_spoken l = languages_spoken existing).
Proof.
  intros Hm. exists (updated existing raw lat lon).
  unfold create_or_update. rewrite Hm.
  pose proof (find_match_lookup _ _ _ _ Hm) as Hl.
  split_and!;
    try done; try apply or_truthy; try (by simpl; intros ->).
  - apply list_lookup_insert_eq. by eapply lookup_lt_Some.
  - apply length_insert.
Qed.

(** C10: for a record whose externalId and dataSource are both non-empty,
    [find_match] returns the first stored row with the same
    (externalId, dataSource) whatever its [deleted_at]; the fuzzy tier only
    ever returns rows with [deleted_at] null; and [create_or_update] then
    updates that row in place, leaving the number of rows and the row's
    [deleted_at] as they were. *)
Theorem identity_match_ignores_soft_delete db raw i l lat lon :
  truthy (raw_external_id raw) = true → truthy (raw_data_source raw) = true →
  db !! i = Some l → same_identity raw l →
  (∀ j y, db !! j = Some y → j < i → ¬ same_identity raw y) →
  find_match db raw = Some (i, l) ∧
  (∀ raw' j c, identity_match db raw' = None →
     find_match db raw' = Some (j, c) → deleted_at c = None) ∧
  create_or_update db raw (Some (lat, lon))
    = Return (<[i := updated l raw lat lon]> db, (i, updated l raw lat lon)) ∧
  length (<[i := updated l raw lat lon]> db) = length db ∧
  deleted_at (updated l raw lat lon) = deleted_at l.
Proof.
  intros He Hd Hl Hs Hfirst.
  pose proof (find_match_identity _ _ _ _ He Hd Hl Hs Hfirst) as Hm.
  split_and!; [done| | |apply length_insert|done].
  - intros raw' j c Hid. unfold find_match. rewrite Hid.
    by intros (_ & [_ ?] & _)%fuzzy_match_Some.
  - unfold create_or_update. by rewrite Hm.
Qed.

End proofs.

#[local] Existing Instance exact_lib.

(** C7, as the claim words it, fails: the incoming record says the shelter
    is not wheelchair accessible (the value is present), and the stored
    value [True] is kept. *)
Lemma update_keeps_stored_accessibility :
  ∃ l, create_or_update [stored_shelter] scraped_shelter (Some (41, -74)%Z)
         = Return ([l], (0, l)) ∧
       is_Some (raw_wheelchair_accessible scraped_shelter) ∧
       wheelchair_accessible l ≠ raw_wheelchair_accessible scraped_shelter.
Proof.
  eexists. split; [vm_compute; reflexivity|]. split; [by eexists|done].
Qed.

Lemma fuzzy_match_strict_thresholds_witness :
  identity_match [live_shelter] scraped_shelter = None ∧
  find_match [live_shelter] scraped_shelter = Some (0, live_shelter) ∧
  (85 # 100 < name_similarity scraped_shelter live_shelter)%Q ∧
  (8 # 10 < address_similarity scraped_shelter live_shelter)%Q.
Proof.
  assert (Hid : identity_match [live_shelter] scraped_shelter = None)
    by (vm_compute; reflexivity).
  assert (Hm : find_match [live_shelter] scraped_shelter = Some (0, live_shelter))
    by (vm_compute; reflexivity).
  split; [exact Hid|]. split; [exact Hm|].
  destruct (fuzzy_match_strict_thresholds [live_shelter] scraped_shelter)
    as (Hsound & _).
  destruct (Hsound 0 live_shelter Hid Hm) as (_ & _ & _ & ? & ?). by split.
Defined.

Lemma update_overwrites_truthy_fields_witness :
  ∃ l, create_or_update [stored_shelter] scraped_shelter (Some (41, -74)%Z)
         = Return (<[0 := l]> [stored_shelter], (0, l)) ∧
       phone l = Some "555-0199"%string ∧
       description l = Some "Beds"%string.
Proof.
  destruct (update_overwrites_truthy_fields [stored_shelter] scraped_shelter
              0 stored_shelter 41%Z (-74)%Z) as (l & Hc & H').
  { vm_compute; reflexivity. }
  exists l. split; [exact Hc|].
  destruct H' as (_&_&_&_&_&_&_&Hp&_&_&_&Hdesc&_).
  split; [by apply Hp|by apply Hdesc].
Defined.

Lemma identity_match_ignores_soft_delete_witness :
  is_Some (deleted_at stored_shelter) ∧
  find_match [stored_shelter] scraped_shelter = Some (0, stored_shelter) ∧
  length (<[0 := updated stored_shelter scraped_shelter 41%Z (-74)%Z]>
            [stored_shelter]) = 1.
Proof.
  split; [by eexists|].
  destruct (identity_match_ignores_soft_delete [stored_shelter] scraped_shelter
              0 stored_shelter 41%Z (-74)%Z) as (Hm & _ & _ & Hlen & _).
  - reflexivity.
  - reflexivity.
  - reflexivity.
  - split; reflexivity.
  - intros j y _ Hj. lia.
  - split; [exact Hm|exact Hlen].
Defined.

End DeduplicatorProofs.

(** ** The in-bounds endpoint *)

Module RouterProofs.
Import GeospatialService Router Examples.

(** C9: a box with [min_lat >= max_lat] or [min_lng >= max_lng] makes the
    in-bounds endpoint fail with the bounds-validation error, status 400;
    it does not return an empty list. *)
Theorem in_bounds_rejects_malformed_box now db min_lat max_lat min_lng max_lng
    center_lat center_lng service_types exclude_service_types
    open_now open_today limit :
  (min_lat >= max_lat)%R ∨ (min_lng >= max_lng)%R →
  let outcome :=
    get_services_in_bounds now db min_lat max_lat min_lng max_lng
      center_lat center_lng service_types exclude_service_types
      open_now open_today limit in
  (∃ detail, outcome = Raise (HTTPException 400 detail)) ∧
  outcome ≠ Return [].
Proof.
  intros Hbad outcome.
  assert (∃ detail, outcome = Raise (HTTPException 400 detail)) as [d Hd].
  { unfold outcome, get_services_in_bounds.
    destruct (decide (min_lat >= max_lat)%R); [by eexists|].
    destruct (decide (min_lng >= max_lng)%R); [by eexists|].
    by destruct Hbad. }
  split; [by exists d|]. by rewrite Hd.
Qed.

Lemma in_bounds_rejects_malformed_box_witness :
  ∃ detail,
    get_services_in_bounds (at_ Monday 12 0) [] 41 40 (-74) (-73)
      None None None None false false 75
    = Raise (HTTPException 400 detail).
Proof.
  refine (proj1 (in_bounds_rejects_malformed_box (at_ Monday 12 0) [] 41 40
                   (-74) (-73) None None None None false false 75 _)).
  left. lra.
Defined.

(** C8 does not hold of the code: the handler passes [open_today] on to
    [find_in_bounds], which has no such parameter, so every request with a
    well-formed box ends in a [TypeError] instead of a filtered list. *)
Theorem in_bounds_open_today_unexpected now db min_lat max_lat min_lng max_lng
    center_lat center_lng service_types exclude_service_types
    open_now open_today limit :
  (min_lat < max_lat)%R → (min_lng < max_lng)%R →
  ("open_today"%string ∉ find_in_bounds_parameters) ∧
  get_services_in_bounds now db min_lat max_lat min_lng max_lng
    center_lat center_lng service_types exclude_service_types
    open_now open_today limit
  = Raise (TypeError "open_today").
Proof.
  intros Hlat Hlng. split; [apply (bool_decide_unpack _); by vm_compute|].
  unfold get_services_in_bounds.
  destruct (decide (min_lat >= max_lat)%R); [lra|].
  destruct (decide (min_lng >= max_lng)%R); [lra|].
  reflexivity.
Qed.

Lemma in_bounds_open_today_unexpected_witness :
  get_services_in_bounds (at_ Monday 12 0) [] 40 41 (-74) (-73)
    None None None None false true 75
  = Raise (TypeError "open_today").
Proof.
  refine (proj2 (in_bounds_open_today_unexpected (at_ Monday 12 0) [] 40 41
                   (-74) (-73) None None None None false true 75 _ _)); lra.
Defined.

End RouterProofs.

(** ** Facts about the haversine distance *)

Module HaversineFacts.
Import GeospatialService.
Local Open Scope R_scope.

Lemma radians_0 : radians 0 = 0%R.
Proof. unfold radians. lra. Qed.

Lemma atan2_0_1 : atan2 0 1 = 0%R.
Proof.
  unfold atan2. rewrite decide_True by lra.
  replace (0 / 1)%R with 0%R by lra. apply atan_0.
Qed.

(** [haversine(a, a) = 0] *)
Lemma haversine_distance_self lat lon :
  haversine_distance lat lon lat lon = 0%R.
Proof.
  unfold haversine_distance.
  replace (lat - lat)%R with 0%R by lra. replace (lon - lon)%R with 0%R by lra.
  rewrite radians_0. replace (0 / 2)%R with 0%R by lra. rewrite sin_0.
  replace (0 ^ 2 + cos (radians lat) * cos (radians lat) * 0 ^ 2)%R
    with 0%R by lra.
  rewrite sqrt_0, Rminus_0_r, sqrt_1, atan2_0_1. lra.
Qed.

(** Two decimals of [PI], from the series of [2 atan (1/3) + atan (1/7)]. *)
Lemma PI_lower : 3.1415 < PI.
Proof.
  pose proof (PI_2_3_7_ineq 1) as [H _].
  unfold sum_f_R0, tg_alt, PI_2_3_7_tg, Ratan_seq in H. simpl in H.
  lra.
Qed.

Lemma PI_upper : PI < 3.1421.
Proof.
  pose proof (PI_2_3_7_ineq 1) as [_ H].
  unfold sum_f_R0, tg_alt, PI_2_3_7_tg, Ratan_seq in H. simpl in H.
  lra.
Qed.

(** For an angle in the first quadrant whose squared sine is at most [a],
    the angle is at most [atan2 (sqrt a) (sqrt (1 - a))]. *)
Lemma atan2_sqrt_lower theta a :
  0 <= theta <= PI / 2 → (sin theta)² <= a →
  theta <= atan2 (sqrt a) (sqrt (1 - a)).
Proof.
  intros [H0 H2] Ha. unfold atan2.
  destruct (Rlt_le_dec a 1) as [Hlt|Hge].
  - assert (0 < sqrt (1 - a)) by (apply sqrt_lt_R0; lra).
    rewrite decide_True by done.
    assert (Hth : theta < PI / 2).
    { destruct H2 as [? | ->]; [done|]. rewrite sin_PI2 in Ha.
      unfold Rsqr in Ha. lra. }
    assert (Hcos : 0 < cos theta) by (apply cos_gt_0; lra).
    assert (Hsin : 0 <= sin theta).
    { apply sin_ge_0; [lra|]. pose proof PI_RGT_0. lra. }
    rewrite <- (atan_tan theta) at 1 by lra.
    assert (Htan : tan theta <= sqrt a / sqrt (1 - a)).
    { unfold tan.
      assert (Hs : sin theta <= sqrt a).
      { rewrite <- (sqrt_Rsqr (sin theta)) by done. by apply sqrt_le_1_alt. }
      assert (Hc : sqrt (1 - a) <= cos theta).
      { rewrite <- (sqrt_Rsqr (cos theta)) by lra. apply sqrt_le_1_alt.
        pose proof (sin2_cos2 theta). lra. }
      assert (0 <= sqrt a) by apply sqrt_pos.
      apply Rle_trans with (sqrt a / cos theta).
      - apply Rmult_le_compat_r; [|done]. left. by apply Rinv_0_lt_compat.
      - apply Rmult_le_compat_l; [done|]. by apply Rinv_le_contravar. }
    destruct Htan as [Htan | ->]; [|lra].
    left. by apply atan_increasing.
  - rewrite (sqrt_neg_0 (1 - a)) by lra.
    assert (0 < sqrt a) by (apply sqrt_lt_R0; lra).
    rewrite decide_False by lra. rewrite decide_False by lra.
    by rewrite decide_True by done.
Qed.

Lemma radians_bound x : -90 <= x <= 90 → - (PI / 2) <= radians x <= PI / 2.
Proof. unfold radians. pose proof PI_RGT_0. intros [??]. split; nra. Qed.

Lemma sin_sqr_Rabs x : (sin (Rabs x))² = (sin x)².
Proof.
  unfold Rabs. destruct (Rcase_abs x); [|done].
  by rewrite sin_neg, <- Rsqr_neg.
Qed.

(** The great-circle distance is at least the distance along the meridian. *)
Lemma haversine_distance_meridian lat1 lon1 lat2 lon2 :
  -90 <= lat1 <= 90 → -90 <= lat2 <= 90 →
  6371000 * Rabs (radians (lat2 - lat1)) <= haversine_distance lat1 lon1 lat2 lon2.
Proof.
  intros H1 H2. unfold haversine_distance.
  set (a := sin (radians (lat2 - lat1) / 2) ^ 2 + _).
  set (theta := Rabs (radians (lat2 - lat1) / 2)).
  assert (Hth : 0 <= theta <= PI / 2).
  { split; [apply Rabs_pos|]. unfold theta. apply Rabs_le.
    pose proof (radians_bound (lat2 - lat1)) as Hr. unfold radians in *.
    pose proof PI_RGT_0. split; nra. }
  assert (Ha : (sin theta)² <= a).
  { unfold theta, a. rewrite sin_sqr_Rabs, Rsqr_pow2.
    pose proof (radians_bound lat1 H1) as [??].
    pose proof (radians_bound lat2 H2) as [??].
    assert (0 <= cos (radians lat1)) by (apply cos_ge_0; lra).
    assert (0 <= cos (radians lat2)) by (apply cos_ge_0; lra).
    assert (0 <= cos (radians lat1) * cos (radians lat2)
                 * sin (radians (lon2 - lon1) / 2) ^ 2).
    { apply Rmult_le_pos; [by apply Rmult_le_pos|apply pow2_ge_0]. }
    lra. }
  pose proof (atan2_sqrt_lower theta a Hth Ha) as Hlow.
  replace (Rabs (radians (lat2 - lat1))) with (2 * theta).
  - lra.
  - unfold theta. unfold Rdiv. rewrite Rabs_mult, (Rabs_pos_eq (/ 2)) by lra. lra.
Qed.

Lemma atan2_sin_cos theta :
  0 <= theta <= PI / 2 → atan2 (sin theta) (cos theta) = theta.
Proof.
  intros [H0 [Hlt | ->]]; unfold atan2.
  - rewrite decide_True by (apply cos_gt_0; lra). apply atan_tan. lra.
  - rewrite cos_PI2, sin_PI2. rewrite !decide_False by lra.
    by rewrite decide_True by lra.
Qed.

(** Along a meridian the distance is the earth radius times the difference
    of the latitudes. *)
Lemma haversine_distance_same_meridian lat1 lat2 lon :
  -90 <= lat1 <= 90 → -90 <= lat2 <= 90 →
  haversine_distance lat1 lon lat2 lon
  = 6371000 * Rabs (radians (lat2 - lat1)).
Proof.
  intros H1 H2. unfold haversine_distance.
  replace (lon - lon) with 0 by lra. rewrite radians_0.
  replace (0 / 2) with 0 by lra. rewrite sin_0.
  set (theta := Rabs (radians (lat2 - lat1) / 2)).
  assert (Hth : 0 <= theta <= PI / 2).
  { split; [apply Rabs_pos|]. unfold theta. apply Rabs_le.
    pose proof (radians_bound (lat2 - lat1)) as Hr. unfold radians in *.
    pose proof PI_RGT_0. split; nra. }
  replace (sin (radians (lat2 - lat1) / 2) ^ 2
           + cos (radians lat1) * cos (radians lat2) * 0 ^ 2)
    with ((sin theta)²)
    by (unfold theta; rewrite sin_sqr_Rabs, Rsqr_pow2; lra).
  replace (1 - (sin theta)²) with ((cos theta)²)
    by (pose proof (sin2_cos2 theta); lra).
  rewrite !sqrt_Rsqr, atan2_sin_cos; [|done|apply cos_ge_0; lra|].
  - unfold theta, Rdiv. rewrite Rabs_mult, (Rabs_pos_eq (/ 2)) by lra. lra.
  - apply sin_ge_0; [lra|]. pose proof PI_RGT_0. lra.
Qed.

Lemma latitude_in_box lat lon radius_km la lo :
  -90 <= lat <= 90 → -90 <= la <= 90 →
  haversine_distance lat lon la lo <= radius_km * 1000 →
  lat - radius_km / 111 <= la <= lat + radius_km / 111.
Proof.
  intros H1 H2 Hd.
  pose proof (haversine_distance_meridian lat lon la lo H1 H2) as Hm.
  pose proof PI_lower as Hpi.
  assert (Hab : Rabs (la - lat) * 111 <= radius_km).
  { unfold radians in Hm. unfold Rdiv in Hm.
    rewrite !Rabs_mult, (Rabs_pos_eq PI), (Rabs_pos_eq (/ 180)) in Hm by lra.
    pose proof (Rabs_pos (la - lat)). nra. }
  assert (Hle : Rabs (la - lat) <= radius_km / 111) by lra.
  pose proof (Rle_abs (la - lat)). pose proof (Rle_abs (- (la - lat))).
  rewrite Rabs_Ropp in *. lra.
Qed.

(** [sin x >= x - x^3/6] for [0 <= x <= PI]. *)
Lemma sin_cubic_lower x : 0 <= x <= PI → x - x ^ 3 / 6 <= sin x.
Proof.
  intros [H0 H1]. pose proof (sin_bound x 0 H0 H1) as [H _].
  unfold sin_approx, sum_f_R0, sin_term in H. simpl in H. lra.
Qed.

(** If the half-angle computed by [atan2] is at most [t], the haversine
    [a] is at most [sin t ^ 2]. *)
Lemma atan2_sqrt_upper t a :
  0 <= a → 0 <= t < PI / 2 →
  atan2 (sqrt a) (sqrt (1 - a)) <= t → a <= (sin t)².
Proof.
  intros Ha [Ht0 Ht2]. unfold atan2.
  destruct (Rlt_le_dec a 1) as [Hlt|Hge].
  - assert (Hq : 0 < sqrt (1 - a)) by (apply sqrt_lt_R0; lra).
    rewrite decide_True by done. intros Hat.
    set (q := sqrt a / sqrt (1 - a)) in *.
    assert (Htan : q <= tan t).
    { rewrite <- (tan_atan q). destruct Hat as [Hat|Hat].
      - left. apply tan_increasing; [apply atan_bound|done|lra].
      - rewrite Hat. lra. }
    assert (Hcos : 0 < cos t) by (apply cos_gt_0; lra).
    assert (Hsin : 0 <= sin t).
    { apply sin_ge_0; [lra|]. pose proof PI_RGT_0. lra. }
    assert (Hmul : sqrt a * cos t <= sin t * sqrt (1 - a)).
    { unfold q, tan, Rdiv in Htan.
      apply (Rmult_le_compat_r (sqrt (1 - a) * cos t)) in Htan; [|nra].
      replace (sqrt a * / sqrt (1 - a) * (sqrt (1 - a) * cos t))
        with (sqrt a * cos t) in Htan by (field; lra).
      replace (sin t * / cos t * (sqrt (1 - a) * cos t))
        with (sin t * sqrt (1 - a)) in Htan by (field; lra).
      done. }
    pose proof (sqrt_sqrt a Ha) as Hsa.
    pose proof (sqrt_sqrt (1 - a) ltac:(lra)) as Hsb.
    pose proof (sqrt_pos a).
    pose proof (sin2_cos2 t) as Hsc. unfold Rsqr in *.
    assert (Hsq : (sqrt a * cos t) * (sqrt a * cos t)
                  <= (sin t * sqrt (1 - a)) * (sin t * sqrt (1 - a))).
    { apply Rmult_le_compat; nra. }
    nra.
  - rewrite (sqrt_neg_0 (1 - a)) by lra.
    assert (0 < sqrt a) by (apply sqrt_lt_R0; lra).
    rewrite decide_False by lra. rewrite decide_False by lra.
    rewrite decide_True by done. lra.
Qed.

(** The algebraic core of the longitude bound: from the spherical law of
    cosines [D <= s1 s2 + c1 c2 L] to [c1^2 (1 - L^2) <= 1 - D^2] and
    [0 <= L]. *)
Lemma longitude_core s1 c1 s2 c2 D L :
  s1 * s1 + c1 * c1 = 1 → s2 * s2 + c2 * c2 = 1 →
  0 < c1 → 0 <= c2 → 0 <= D → s1 * s1 < D * D → L <= 1 →
  D <= s1 * s2 + c1 * c2 * L →
  0 <= L ∧ c1 * c1 * (1 - L * L) <= 1 - D * D.
Proof.
  intros H1 H2 Hc1 Hc2 HD HDs HL Hlaw.
  set (Q := sqrt (D * D - s1 * s1)).
  assert (HQ : 0 < Q) by (apply sqrt_lt_R0; lra).
  assert (HQQ : Q * Q = D * D - s1 * s1) by (apply sqrt_sqrt; lra).
  (* Cauchy-Schwarz *)
  assert (Hcs : s1 * s2 + Q * c2 <= D).
  { destruct (Rle_lt_dec (s1 * s2 + Q * c2) D) as [|Hgt]; [done|].
    assert (D * D < (s1 * s2 + Q * c2) * (s1 * s2 + Q * c2)) by nra.
    assert ((s1 * s2 + Q * c2) * (s1 * s2 + Q * c2)
            + (s1 * c2 - Q * s2) * (s1 * c2 - Q * s2) = D * D).
    { transitivity ((s1 * s1 + Q * Q) * (s2 * s2 + c2 * c2)); [ring|].
      rewrite H2. lra. }
    pose proof (Rle_0_sqr (s1 * c2 - Q * s2)) as Hsq. unfold Rsqr in Hsq.
    lra. }
  assert (Hc2pos : 0 < c2).
  { destruct Hc2 as [|<-]; [done|].
    assert (s2 * s2 = 1) by lra.
    assert ((s1 * s2) * (s1 * s2) = s1 * s1) by nra.
    nra. }
  assert (HQL : Q <= c1 * L).
  { assert (Q * c2 <= (c1 * L) * c2) by lra.
    apply Rmult_le_reg_r with c2; done. }
  split.
  - apply Rmult_le_reg_l with c1; [done|]. lra.
  - assert (Q * Q <= (c1 * L) * (c1 * L)) by (apply Rmult_le_compat; lra).
    nra.
Qed.

Lemma radians_minus x y : radians (x - y) = radians x - radians y.
Proof. unfold radians. lra. Qed.

Lemma sin_half_sqr x : sin (x / 2) ^ 2 = (1 - cos x) / 2.
Proof.
  replace x with (2 * (x / 2)) at 2 by lra. rewrite cos_2a_sin. lra.
Qed.

(** The spherical law of cosines, read off the haversine. *)
Lemma haversine_law_of_cosines phi1 phi2 dlambda delta :
  sin ((phi2 - phi1) / 2) ^ 2 + cos phi1 * cos phi2 * sin (dlambda / 2) ^ 2
    <= (sin (delta / 2))² →
  cos delta <= sin phi1 * sin phi2 + cos phi1 * cos phi2 * cos dlambda.
Proof.
  rewrite Rsqr_pow2, !sin_half_sqr, cos_minus. intros H.
  replace (cos phi1 * cos phi2 * ((1 - cos dlambda) / 2))
    with ((cos phi1 * cos phi2 - cos phi1 * cos phi2 * cos dlambda) / 2)
    in H by field.
  replace (cos phi2 * cos phi1) with (cos phi1 * cos phi2) in H by ring.
  replace (sin phi2 * sin phi1) with (sin phi1 * sin phi2) in H by ring.
  lra.
Qed.

Lemma sin_le_x x : 0 <= x → sin x <= x.
Proof. intros [Hx|<-]; [left; by apply sin_lt_x|rewrite sin_0; lra]. Qed.

Lemma longitude_in_box lat lon radius_km la lo :
  -90 < lat < 90 → -90 <= la <= 90 → -180 <= lo - lon <= 180 →
  0 <= radius_km <= 600 * cos (radians lat) →
  haversine_distance lat lon la lo <= radius_km * 1000 →
  lon - radius_km / (111 * cos (radians lat)) <= lo
    <= lon + radius_km / (111 * cos (radians lat)).
Proof.
  intros Hlat Hla Hlo [Hr0 Hr] Hd.
  pose proof PI_lower as Hpi1. pose proof PI_upper as Hpi2.
  set (phi1 := radians lat) in *. set (phi2 := radians la).
  set (dl := radians (lo - lon)).
  set (delta := radius_km / 6371).
  assert (Hphi1 : - (PI / 2) < phi1 < PI / 2).
  { unfold phi1, radians. split; nra. }
  assert (Hphi2 : - (PI / 2) <= phi2 <= PI / 2).
  { unfold phi2, radians. split; nra. }
  assert (Hc1 : 0 < cos phi1) by (apply cos_gt_0; lra).
  assert (Hc2 : 0 <= cos phi2) by (apply cos_ge_0; lra).
  assert (Hc1le : cos phi1 <= 1) by apply COS_bound.
  assert (Hdelta : 0 <= delta <= 0.095 * cos phi1).
  { unfold delta. split; lra. }
  (* the haversine is at most sin^2 (delta / 2) *)
  unfold haversine_distance in Hd. fold phi1 phi2 dl in Hd.
  rewrite radians_minus in Hd. fold phi1 phi2 in Hd.
  set (a := sin ((phi2 - phi1) / 2) ^ 2 + _) in Hd.
  assert (Ha0 : 0 <= a).
  { unfold a. apply Rplus_le_le_0_compat; [apply pow2_ge_0|].
    apply Rmult_le_pos; [apply Rmult_le_pos; lra|apply pow2_ge_0]. }
  assert (Ha : a <= (sin (delta / 2))²).
  { apply atan2_sqrt_upper; [done|lra|]. unfold delta. lra. }
  pose proof (haversine_law_of_cosines _ _ _ _ Ha) as Hlaw.
  (* the algebraic core *)
  assert (Hdpi : 0 <= delta <= PI / 2) by lra.
  assert (HD : 0 <= cos delta) by (apply cos_ge_0; lra).
  assert (Hsd : 0 <= sin delta) by (apply sin_ge_0; lra).
  assert (Hsdle : sin delta <= delta) by (apply sin_le_x; lra).
  pose proof (sin2_cos2 phi1) as Hs1. pose proof (sin2_cos2 phi2) as Hs2.
  pose proof (sin2_cos2 delta) as Hs3. pose proof (sin2_cos2 dl) as Hs4.
  unfold Rsqr in Hs1, Hs2, Hs3, Hs4.
  assert (HDs : sin phi1 * sin phi1 < cos delta * cos delta).
  { assert (sin delta * sin delta < cos phi1 * cos phi1) by nra. lra. }
  destruct (longitude_core (sin phi1) (cos phi1) (sin phi2) (cos phi2)
              (cos delta) (cos dl)) as [HL Hcore];
    [done..|apply COS_bound|done|].
  assert (Hcs : cos phi1 * cos phi1 * (sin dl * sin dl) <= sin delta * sin delta).
  { replace (sin dl * sin dl) with (1 - cos dl * cos dl) by lra. lra. }
  (* from the sine of the longitude difference to the difference itself *)
  set (B := radians (radius_km / (111 * cos phi1))).
  assert (HB : cos phi1 * B = radius_km * PI / 19980).
  { unfold B, radians. field. lra. }
  assert (HB0 : 0 <= B).
  { unfold B, radians. apply Rmult_le_pos; [|lra]. apply Rmult_le_pos; [|lra].
    apply Rmult_le_pos; [lra|]. left. apply Rinv_0_lt_compat. lra. }
  assert (HBle : B <= 0.0944).
  { apply Rmult_le_reg_l with (cos phi1); [done|]. rewrite HB. nra. }
  assert (Hdl : Rabs dl <= B).
  { destruct (Rle_lt_dec (Rabs dl) B) as [|Hgt]; [done|exfalso].
    assert (Hdlpi : 0 <= Rabs dl <= PI).
    { split; [apply Rabs_pos|]. apply Rabs_le. unfold dl, radians. split; nra. }
    assert (Hcabs : cos (Rabs dl) = cos dl).
    { unfold Rabs. destruct (Rcase_abs dl); [apply cos_neg|done]. }
    assert (Hdl2 : Rabs dl <= PI / 2).
    { apply cos_decr_0; [lra..|]. rewrite cos_PI2, Hcabs. done. }
    assert (HsinB : sin B < sin (Rabs dl)).
    { apply sin_increasing_1; lra. }
    assert (Hsabs : 0 <= sin (Rabs dl)) by (apply sin_ge_0; lra).
    assert (Hsq : (sin (Rabs dl))² = (sin dl)²) by apply sin_sqr_Rabs.
    unfold Rsqr in Hsq.
    assert (Hle : cos phi1 * sin (Rabs dl) <= sin delta).
    { destruct (Rle_lt_dec (cos phi1 * sin (Rabs dl)) (sin delta)) as [|Hlt];
        [done|exfalso].
      assert (sin delta * sin delta
              < (cos phi1 * sin (Rabs dl)) * (cos phi1 * sin (Rabs dl)))
        by (apply Rmult_le_0_lt_compat; lra).
      nra. }
    pose proof (sin_cubic_lower B ltac:(lra)) as Hcub.
    assert (Hlow : delta <= cos phi1 * sin B).
    { apply Rle_trans with (cos phi1 * (B - B ^ 3 / 6)).
      - replace (cos phi1 * (B - B ^ 3 / 6))
          with (cos phi1 * B * (1 - B * B / 6)) by field.
        rewrite HB. unfold delta.
        assert (0.9985 <= 1 - B * B / 6) by nra.
        assert (radius_km / 6371 <= radius_km * PI / 19980 * 0.9985) by nra.
        apply Rle_trans with (radius_km * PI / 19980 * 0.9985); [done|].
        apply Rmult_le_compat_l; [nra|done].
      - apply Rmult_le_compat_l; lra. }
    nra. }
  (* back to degrees *)
  unfold B, dl, radians in Hdl.
  assert (Hdeg : Rabs (lo - lon) <= radius_km / (111 * cos phi1)).
  { unfold Rdiv in Hdl. rewrite !Rabs_mult, (Rabs_pos_eq PI), (Rabs_pos_eq (/ 180)) in Hdl by lra.
    nra. }
  pose proof (Rle_abs (lo - lon)). pose proof (Rle_abs (- (lo - lon))).
  rewrite Rabs_Ropp in *. lra.
Qed.

End HaversineFacts.

(** ** The bounding-box prefilter *)

Module BoundingBoxProofs.
Import GeospatialService NearbySpec Examples HaversineFacts.
Local Open Scope R_scope.

(** C1 (amended): for a query center with [-90 < lat < 90] and a radius
    [0 < radiusKm <= 600 * cos (radians lat)], a point with latitude in
    [[-90, 90]] whose longitude differs from [lon] by at most 180 degrees and
    whose haversine distance from the center is at most [radiusKm * 1000]
    meters has its latitude in [[lat - radiusKm/111, lat + radiusKm/111]]
    and its longitude in [[lon - radiusKm/(111 cos(radians lat)),
    lon + radiusKm/(111 cos(radians lat))]]: the prefilter of [find_nearby]
    keeps every such non-deleted location. *)
Theorem bounding_box_superset lat lon radius_km (l : ServiceLocation R) la lo :
  deleted_at l = None → latitude l = Some la → longitude l = Some lo →
  -90 < lat < 90 → -90 <= la <= 90 → -180 <= lo - lon <= 180 →
  0 < radius_km <= 600 * cos (radians lat) →
  haversine_distance lat lon la lo <= radius_km * 1000 →
  lat - radius_km / 111 <= la <= lat + radius_km / 111 ∧
  lon - radius_km / (111 * cos (radians lat)) <= lo
    <= lon + radius_km / (111 * cos (radians lat)) ∧
  in_prefilter lat lon radius_km l.
Proof.
  intros Hdel Hla Hlo Hlat Hla' Hlo' Hr Hd.
  assert (Hbox_lat := latitude_in_box lat lon radius_km la lo
                        ltac:(lra) Hla' Hd).
  assert (Hbox_lon := longitude_in_box lat lon radius_km la lo
                        Hlat Hla' Hlo' ltac:(lra) Hd).
  split_and!; try lra.
  unfold in_prefilter, bounding_box, in_box. cbv beta zeta iota.
  rewrite Hla, Hlo. split; [done|]. lra.
Qed.

Lemma bounding_box_superset_witness : in_prefilter 0 0 1 (place "A" []).
Proof.
  refine (proj2 (proj2 (bounding_box_superset 0 0 1 (place "A" []) 0 0
                          eq_refl eq_refl eq_refl _ _ _ _ _))).
  - lra.
  - lra.
  - lra.
  - rewrite radians_0, cos_0. lra.
  - rewrite haversine_distance_self. lra.
Defined.

Lemma haversine_distance_antimeridian :
  haversine_distance 0 180 0 (-180) = 0.
Proof.
  unfold haversine_distance.
  replace (0 - 0) with 0 by lra. rewrite radians_0.
  replace (radians (-180 - 180) / 2) with (- PI) by (unfold radians; lra).
  replace (0 / 2) with 0 by lra. rewrite sin_0, sin_neg, sin_PI, cos_0.
  replace (0 ^ 2 + 1 * 1 * (- 0) ^ 2) with 0 by lra.
  rewrite sqrt_0, Rminus_0_r, sqrt_1, atan2_0_1. lra.
Qed.

(** C1, as the claim words it, fails: longitudes 180 and -180 name the same
    meridian, so the point (0, -180) is at distance 0 from the center
    (0, 180), yet its longitude is not within the box around 180. *)
Lemma bounding_box_misses_across_antimeridian :
  0 < 1 ∧ haversine_distance 0 180 0 (-180) <= 1 * 1000 ∧
  ¬ (180 - 1 / (111 * cos (radians 0)) <= -180
       <= 180 + 1 / (111 * cos (radians 0))) ∧
  ¬ in_prefilter 0 180 1 (place_at 0 (-180) "A" []).
Proof.
  split; [lra|]. split; [rewrite haversine_distance_antimeridian; lra|].
  assert (Hout : ¬ (180 - 1 / (111 * cos (radians 0)) <= -180)).
  { rewrite radians_0, cos_0. lra. }
  split; [tauto|].
  unfold in_prefilter, bounding_box, in_box. cbv beta zeta iota. simpl.
  tauto.
Qed.

End BoundingBoxProofs.

(** ** Nearby search *)

Module NearbyProofs.
Import GeospatialService NearbySpec Examples HaversineFacts.

Section sorting.
Context {A : Type} (key : A → R).
Local Abbreviation by_key := (by_key key).

Lemma insert_by_Permutation x l : insert_by key x l ≡ₚ x :: l.
Proof.
  induction l as [|y l IH]; simpl; [done|].
  case_decide; [done|]. rewrite IH. apply Permutation_swap.
Qed.

Lemma sort_by_Permutation l : sort_by key l ≡ₚ l.
Proof.
  induction l as [|x l IH]; simpl; [done|].
  by rewrite insert_by_Permutation, IH.
Qed.

Lemma insert_by_sorted x l :
  StronglySorted by_key l → StronglySorted by_key (insert_by key x l).
Proof.
  induction 1 as [|y l Hs IH Hy]; simpl.
  - by repeat constructor.
  - case_decide as Hxy.
    + constructor; [by constructor|]. constructor; [done|].
      eapply Forall_impl; [exact Hy|]. unfold by_key. intros z ?. lra.
    + constructor; [done|]. rewrite insert_by_Permutation.
      constructor; [|done]. unfold by_key. lra.
Qed.

Lemma sort_by_sorted l : StronglySorted by_key (sort_by key l).
Proof.
  induction l; simpl; [constructor|]. by apply insert_by_sorted.
Qed.

Lemma StronglySorted_sublist (l1 l2 : list A) :
  l1 `sublist_of` l2 → StronglySorted by_key l2 → StronglySorted by_key l1.
Proof.
  induction 1 as [|x l1 l2 Hsub IH|x l1 l2 Hsub IH]; intros Hs; [done|..].
  - apply StronglySorted_inv in Hs as [Hs Hx]. constructor; [by apply IH|].
    eapply Forall_forall. intros y Hy.
    eapply Forall_forall in Hx; [done|]. by eapply elem_of_sublist.
  - apply StronglySorted_inv in Hs as [Hs _]. by apply IH.
Qed.

(** In a sorted list a strictly smaller key comes strictly earlier. *)
Lemma sorted_lookup_lt l i j x y :
  StronglySorted by_key l → l !! i = Some x → l !! j = Some y →
  (key x < key y)%R → i < j.
Proof.
  intros Hs. revert i j. induction Hs as [|z l Hs IH Hz]; intros i j; [done|].
  destruct i as [|i], j as [|j]; simpl; intros Hi Hj Hlt; simplify_eq.
  - lra.
  - lia.
  - apply list_elem_of_lookup_2 in Hi.
    eapply Forall_forall in Hz; [|done]. unfold NearbySpec.by_key in Hz. lra.
  - apply ->Nat.succ_lt_mono. eauto.
Qed.

End sorting.

Lemma slice_to_take {A} (l : list A) (stop : Z) :
  (0 ≤ stop)%Z → slice_to l stop = take (Z.to_nat stop) l.
Proof. intros. unfold slice_to. by rewrite decide_True. Qed.

Lemma slice_to_sublist {A} (l : list A) (stop : Z) :
  slice_to l stop `sublist_of` l.
Proof. unfold slice_to. case_decide; apply sublist_take. Qed.

Lemma nearby_responses_filter now open_now l :
  nearby_responses now open_now l
  = response_of now <$> filter (kept now open_now) l.
Proof.
  induction l as [|[loc d] l IH]; [done|]. simpl. rewrite filter_cons.
  destruct (decide (kept now open_now (loc, d))) as [Hk|Hk];
    unfold kept, open_candidate in Hk; simpl in Hk.
  - replace (open_now && negb (_calculate_is_open_now now (operating_hours loc.2)))
      with false by (destruct open_now; [by rewrite Hk|done]).
    by rewrite fmap_cons, IH.
  - destruct open_now; [|by destruct Hk].
    destruct (_calculate_is_open_now now (operating_hours loc.2));
      [by destruct Hk|done].
Qed.

Lemma locations_with_distance_measured lat lon radius_km locations :
  Forall (measured lat lon radius_km)
    (locations_with_distance lat lon radius_km locations).
Proof.
  induction locations as [|loc locations IH]; simpl; [done|].
  destruct (latitude loc.2) as [la|] eqn:Hla; [|done].
  destruct (longitude loc.2) as [lo|] eqn:Hlo; [|done].
  case_decide; [|done]. constructor; [|done]. by exists la, lo.
Qed.

Lemma nearby_candidates_measured db lat lon radius_km service_types :
  Forall (measured lat lon radius_km)
    (nearby_candidates db lat lon radius_km service_types).
Proof.
  unfold nearby_candidates, bounding_box. cbv beta zeta iota.
  rewrite sort_by_Permutation. apply locations_with_distance_measured.
Qed.

Lemma nearby_candidates_sorted db lat lon radius_km service_types :
  StronglySorted (by_key snd)
    (nearby_candidates db lat lon radius_km service_types).
Proof.
  unfold nearby_candidates, bounding_box. cbv beta zeta iota.
  apply sort_by_sorted.
Qed.

Lemma center_distance_response_of now lat lon radius_km c :
  measured lat lon radius_km c →
  center_distance lat lon (response_of now c) = c.2.
Proof.
  intros (la & lo & Hla & Hlo & Hd & _).
  unfold center_distance, response_of. simpl. by rewrite Hla, Hlo.
Qed.

Lemma within_radius_response_of now lat lon radius_km c :
  measured lat lon radius_km c →
  within_radius lat lon radius_km (response_of now c).
Proof.
  intros (la & lo & Hla & Hlo & Hd & Hle). exists la, lo. simpl.
  split_and!; [done..|]. by rewrite <- Hd.
Qed.

Lemma responses_sorted now lat lon radius_km l :
  Forall (measured lat lon radius_km) l → StronglySorted (by_key snd) l →
  StronglySorted (closer lat lon) (response_of now <$> l).
Proof.
  intros Hm Hs. induction Hs as [|c l Hs IH Hc]; [constructor|].
  apply Forall_cons in Hm as [Hmc Hm]. rewrite fmap_cons.
  constructor; [by apply IH|]. apply Forall_fmap, Forall_forall.
  intros c' Hc'. unfold compose, closer.
  rewrite (center_distance_response_of _ _ _ radius_km c) by done.
  rewrite (center_distance_response_of _ _ _ radius_km c')
    by (eapply Forall_forall in Hm; done).
  eapply Forall_forall in Hc; done.
Qed.

(** What [find_nearby] keeps of the candidates. *)
Lemma find_nearby_kept now db lat lon radius_km service_types open_now limit :
  find_nearby now db lat lon radius_km service_types open_now limit
  = response_of now <$>
      filter (kept now open_now)
        (slice_to (nearby_candidates db lat lon radius_km service_types)
                  (limit `min` 500)%Z).
Proof. unfold find_nearby. apply nearby_responses_filter. Qed.

Lemma kept_sublist now db lat lon radius_km service_types open_now limit :
  filter (kept now open_now)
    (slice_to (nearby_candidates db lat lon radius_km service_types)
              (limit `min` 500)%Z)
  `sublist_of` nearby_candidates db lat lon radius_km service_types.
Proof.
  etrans; [apply sublist_filter; apply _|apply slice_to_sublist].
Qed.

Lemma Forall_sublist {A} (P : A → Prop) (l1 l2 : list A) :
  l1 `sublist_of` l2 → Forall P l2 → Forall P l1.
Proof.
  intros Hsub HP. apply Forall_forall. intros x Hx.
  eapply Forall_forall in HP; [done|]. by eapply elem_of_sublist.
Qed.

(** C5: [find_nearby] returns at most min(limit, 500) locations, each
    within [radius_km * 1000] meters of the query center by the haversine
    distance, in non-decreasing order of that distance. The limit is a
    count: it is not negative. *)
Theorem find_nearby_bounded_sorted now db lat lon radius_km service_types
    open_now limit :
  (0 ≤ limit)%Z →
  let found :=
    find_nearby now db lat lon radius_km service_types open_now limit in
  (Z.of_nat (length found) ≤ limit `min` 500)%Z ∧
  Forall (within_radius lat lon radius_km) found ∧
  StronglySorted (closer lat lon) found.
Proof.
  intros Hlimit found. unfold found. rewrite find_nearby_kept.
  pose proof (kept_sublist now db lat lon radius_km service_types open_now limit)
    as Hsub.
  pose proof (nearby_candidates_measured db lat lon radius_km service_types)
    as Hm.
  split_and!.
  - rewrite length_fmap.
    etrans; [apply inj_le, length_filter|].
    rewrite slice_to_take, length_take by lia. lia.
  - apply Forall_fmap. eapply Forall_impl.
    + eapply Forall_sublist; done.
    + intros c Hc. by apply within_radius_response_of.
  - eapply responses_sorted.
    + eapply Forall_sublist; done.
    + eapply StronglySorted_sublist; [done|]. apply nearby_candidates_sorted.
Qed.

Lemma find_nearby_bounded_sorted_witness :
  (Z.of_nat (length (find_nearby (at_ Monday 12 0)
                       [place "A" []; place "B" [always_open]]
                       0 0 1 None true 1)) ≤ 1 `min` 500)%Z.
Proof.
  refine (proj1 (find_nearby_bounded_sorted (at_ Monday 12 0)
                   [place "A" []; place "B" [always_open]]
                   0 0 1 None true 1 _)).
  lia.
Defined.

(** C6 (amended): with [open_now] set, [find_nearby] returns the open-now
    members of the min(limit, 500) closest candidates within the radius
    (the limit is applied before the open-now filter), every returned
    location is open, the list is closest first, and an open candidate
    strictly closer than a returned location is itself returned. *)
Theorem find_nearby_open_now now db lat lon radius_km service_types limit :
  (0 ≤ limit)%Z →
  let candidates := nearby_candidates db lat lon radius_km service_types in
  let found := find_nearby now db lat lon radius_km service_types true limit in
  found = response_of now <$>
            filter (open_candidate now)
              (take (Z.to_nat (limit `min` 500)) candidates) ∧
  Forall (λ r, resp_is_open_now r = true) found ∧
  StronglySorted (closer lat lon) found ∧
  (∀ c r, c ∈ candidates → open_candidate now c → r ∈ found →
          (c.2 < center_distance lat lon r)%R → response_of now c ∈ found).
Proof.
  intros Hlimit candidates found.
  pose proof (nearby_candidates_measured db lat lon radius_km service_types)
    as Hm.
  pose proof (nearby_candidates_sorted db lat lon radius_km service_types)
    as Hs.
  assert (Hfound : found = response_of now <$>
            filter (open_candidate now)
              (take (Z.to_nat (limit `min` 500)) candidates)).
  { unfold found. rewrite find_nearby_kept, slice_to_take by lia.
    f_equal. apply list_filter_iff. unfold kept. naive_solver. }
  split_and!; [done|..].
  - rewrite Hfound. apply Forall_fmap, Forall_forall.
    by intros c [Ho _]%list_elem_of_filter.
  - rewrite Hfound. eapply responses_sorted.
    + eapply Forall_sublist; [|exact Hm].
      etrans; [apply sublist_filter; apply _|apply sublist_take].
    + eapply StronglySorted_sublist; [|exact Hs].
      etrans; [apply sublist_filter; apply _|apply sublist_take].
  - intros c r Hc Ho Hr Hlt. rewrite Hfound in Hr |- *.
    apply list_elem_of_fmap in Hr as (c' & -> & [Ho' Hc']%list_elem_of_filter).
    apply list_elem_of_fmap. exists c. split; [done|].
    apply list_elem_of_filter. split; [done|].
    apply list_elem_of_lookup in Hc' as [j Hj].
    apply lookup_take_Some in Hj as [Hj Hjn].
    apply list_elem_of_lookup in Hc as [i Hi].
    rewrite (center_distance_response_of _ _ _ radius_km) in Hlt
      by (eapply Forall_lookup_1 in Hm; done).
    pose proof (sorted_lookup_lt snd _ _ _ _ _ Hs Hi Hj Hlt).
    apply list_elem_of_lookup. exists i. apply lookup_take_Some.
    split; [done|lia].
Qed.

Lemma find_nearby_open_now_witness :
  Forall (λ r, resp_is_open_now r = true)
    (find_nearby (at_ Monday 12 0) [place "A" []; place "B" [always_open]]
       0 0 1 None true 1).
Proof.
  refine (proj1 (proj2 (find_nearby_open_now (at_ Monday 12 0)
                   [place "A" []; place "B" [always_open]]
                   0 0 1 None _ _))).
  lia.
Defined.

(** *** A closed place at the center and an open one 111 m north *)

Lemma far_open_distance :
  let d := haversine_distance 0 0 (1 / 1000) 0 in (0 < d <= 1 * 1000)%R.
Proof.
  pose proof PI_lower. pose proof PI_upper.
  cbv zeta. rewrite haversine_distance_same_meridian by lra.
  unfold radians. rewrite Rabs_pos_eq by lra. lra.
Qed.

Lemma nearby_candidates_near_far :
  nearby_candidates [far_open; near_closed] 0 0 1 None
  = [((1, near_closed), 0%R);
     ((0, far_open), haversine_distance 0 0 (1 / 1000) 0)].
Proof.
  pose proof far_open_distance as Hd. cbv zeta in Hd.
  unfold nearby_candidates, bounding_box, query_all. cbv beta zeta iota.
  simpl imap. rewrite radians_0, cos_0.
  rewrite !filter_cons_True by (split; [done|]; simpl; lra).
  rewrite filter_nil. simpl. rewrite haversine_distance_self.
  rewrite !decide_True by lra. simpl.
  by rewrite decide_False by lra.
Qed.

(** C6, as the claim words it, fails: the place at the query center is
    closed and a place 111 m to the north is open; a search with limit 1 and
    [open_now] returns nothing, although an open candidate lies within the
    radius. *)
Lemma find_nearby_open_now_truncates_first :
  find_nearby (at_ Monday 12 0) [far_open; near_closed] 0 0 1 None true 1
  ≠ closest_open (at_ Monday 12 0) [far_open; near_closed] 0 0 1 None 1.
Proof.
  unfold find_nearby, closest_open. rewrite nearby_candidates_near_far.
  rewrite filter_cons_False by (by vm_compute).
  rewrite filter_cons_True by (by vm_compute). done.
Qed.

End NearbyProofs.

(** ** Ingestion *)

Module IngestionProofs.
Import Deduplicator Ingestion IngestionSpec DeduplicatorProofs Examples.

Section proofs.
Context {F : Type} {lib : StrLib}.
Context (geocode : RawServiceData → option (F * F)).
Implicit Types (db : list (ServiceLocation F)) (raw : RawServiceData).
Implicit Types (stats : Stats) (stream : list RawServiceData).

Lemma has_identity_lookup db raw :
  has_identity db raw ↔ ∃ i l, db !! i = Some l ∧ same_identity raw l.
Proof.
  unfold has_identity, identities, same_identity, identity.
  rewrite list_elem_of_fmap. split.
  - intros (l & Heq & [i Hi]%list_elem_of_lookup). exists i, l. naive_solver.
  - intros (i & l & Hi & He & Hd). exists l. rewrite He, Hd.
    split; [done|]. by eapply list_elem_of_lookup_2.
Qed.

Lemma has_identity_match db raw :
  truthy (raw_external_id raw) = true → truthy (raw_data_source raw) = true →
  has_identity db raw → ∃ i l, find_match db raw = Some (i, l).
Proof.
  intros He Hd (i & l & Hi & Hs)%has_identity_lookup.
  destruct (list_find_elem_of (same_identity raw) db l) as [[j m] Hf];
    [by eapply list_elem_of_lookup_2|done|].
  exists j, m. unfold find_match, identity_match, query_first.
  by rewrite He, Hd, Hf.
Qed.

Lemma identities_updated db i l raw lat lon :
  db !! i = Some l →
  identities (<[i := updated l raw lat lon]> db) = identities db.
Proof.
  intros Hi. unfold identities. rewrite list_fmap_insert.
  apply list_insert_id. by rewrite list_lookup_fmap, Hi.
Qed.

(** What one iteration does to the table. *)
Lemma process_table db stats raw :
  (process geocode (db, stats) raw).1 =
  match geocode raw with
  | None => db
  | Some (lat, lon) =>
      match find_match db raw with
      | Some (i, l) => <[i := updated l raw lat lon]> db
      | None => db ++ [created raw lat lon]
      end
  end.
Proof.
  unfold process, create_or_update.
  destruct (geocode raw) as [[lat lon]|]; simpl; [|done].
  by destruct (find_match db raw) as [[i l]|].
Qed.

(** An iteration never removes a row nor changes a stored identity. *)
Lemma process_identities db stats raw :
  ∃ new, identities (process geocode (db, stats) raw).1 = identities db ++ new.
Proof.
  rewrite process_table. destruct (geocode raw) as [[lat lon]|].
  - destruct (find_match db raw) as [[i l]|] eqn:Hm.
    + exists []. rewrite app_nil_r. apply identities_updated.
      by eapply find_match_lookup.
    + eexists. unfold identities. by rewrite fmap_app.
  - exists []. by rewrite app_nil_r.
Qed.

Lemma foldl_process_identities stream db stats :
  ∃ new,
    identities (foldl (process geocode) (db, stats) stream).1
    = identities db ++ new.
Proof.
  revert db stats.
  induction stream as [|raw stream IH]; intros db stats; cbn [foldl].
  - exists []. by rewrite app_nil_r.
  - destruct (process geocode (db, stats) raw) as [db' stats'] eqn:Hp.
    destruct (process_identities db stats raw) as [new1 H1].
    destruct (IH db' stats') as [new2 H2]. rewrite Hp in H1. simpl in H1.
    exists (new1 ++ new2). by rewrite H2, H1, app_assoc.
Qed.

(** A record whose identity is stored is resolved without a new row. *)
Lemma process_resolved db stats raw :
  truthy (raw_external_id raw) = true → truthy (raw_data_source raw) = true →
  has_identity db raw →
  identities (process geocode (db, stats) raw).1 = identities db ∧
  total_created (process geocode (db, stats) raw).2 = total_created stats.
Proof.
  intros He Hd Hid. destruct (has_identity_match db raw) as (i & l & Hm);
    [done..|].
  split.
  - rewrite process_table, Hm. destruct (geocode raw) as [[lat lon]|]; [|done].
    apply identities_updated. by eapply find_match_lookup.
  - unfold process, create_or_update. rewrite Hm.
    by destruct (geocode raw) as [[lat lon]|].
Qed.

Lemma process_not_geocoded db stats raw :
  geocode raw = None →
  (process geocode (db, stats) raw).1 = db ∧
  total_created (process geocode (db, stats) raw).2 = total_created stats.
Proof. intros Hg. unfold process. by rewrite Hg. Qed.

Lemma foldl_process_resolved stream db stats :
  (∀ raw, raw ∈ stream → is_Some (geocode raw) →
     truthy (raw_external_id raw) = true ∧
     truthy (raw_data_source raw) = true ∧ has_identity db raw) →
  identities (foldl (process geocode) (db, stats) stream).1 = identities db ∧
  total_created (foldl (process geocode) (db, stats) stream).2
  = total_created stats.
Proof.
  revert db stats. induction stream as [|raw stream IH]; intros db stats Hall;
    cbn [foldl]; [done|].
  destruct (process geocode (db, stats) raw) as [db' stats'] eqn:Hp.
  assert (identities db' = identities db ∧
          total_created stats' = total_created stats) as [Hi Hc].
  { destruct (geocode raw) as [c|] eqn:Hg.
    - destruct (Hall raw) as (He & Hd & Hid); [by left|by rewrite Hg|].
      pose proof (process_resolved db stats raw He Hd Hid) as Hr.
      by rewrite Hp in Hr.
    - pose proof (process_not_geocoded db stats raw Hg) as [Hr1 Hr2].
      rewrite Hp in Hr1, Hr2. simpl in *. by subst. }
  destruct (IH db' stats') as [Hi' Hc'].
  { intros r Hr Hg. destruct (Hall r) as (?&?&Hid); [by right|done|].
    split_and!; [done..|]. unfold has_identity in *. by rewrite Hi. }
  split; congruence.
Qed.

(** The table after a run does not depend on the counters it starts from. *)
Lemma foldl_process_table stream db stats stats' :
  (foldl (process geocode) (db, stats) stream).1
  = (foldl (process geocode) (db, stats') stream).1.
Proof.
  revert db stats stats'.
  induction stream as [|raw stream IH]; intros db stats stats'; cbn [foldl];
    [done|].
  pose proof (process_table db stats raw) as H1.
  pose proof (process_table db stats' raw) as H2.
  destruct (process geocode (db, stats) raw) as [db1 s1].
  destruct (process geocode (db, stats') raw) as [db2 s2].
  simpl in H1, H2. rewrite H1, <- H2. apply IH.
Qed.

(** A record the run inserts has its identity stored from then on. *)
Lemma inserted_record_has_identity db stats pre raw post :
  is_Some (geocode raw) →
  find_match (foldl (process geocode) (db, stats) pre).1 raw = None →
  has_identity (foldl (process geocode) (db, stats) (pre ++ raw :: post)).1 raw.
Proof.
  intros [[lat lon] Hg] Hm. rewrite foldl_app. cbn [foldl].
  destruct (foldl (process geocode) (db, stats) pre) as [db1 s1]. simpl in Hm.
  pose proof (process_table db1 s1 raw) as Ht. rewrite Hg, Hm in Ht.
  destruct (process geocode (db1, s1) raw) as [db2 s2]. simpl in Ht.
  destruct (foldl_process_identities post db2 s2) as [new Hnew].
  unfold has_identity. rewrite Hnew, Ht. unfold identities.
  rewrite fmap_app, !elem_of_app. left. right. by apply list_elem_of_singleton.
Qed.

Lemma run_scraper_table db stats stream :
  (run_scraper geocode (db, stats) stream).1
  = (foldl (process geocode) (db, stats) stream).1.
Proof. unfold run_scraper. apply foldl_process_table. Qed.

Lemma run_scraper_resolved db stats stream :
  (∀ raw, raw ∈ stream → is_Some (geocode raw) →
     truthy (raw_external_id raw) = true ∧
     truthy (raw_data_source raw) = true ∧ has_identity db raw) →
  identities (run_scraper geocode (db, stats) stream).1 = identities db ∧
  total_created (run_scraper geocode (db, stats) stream).2
  = total_created stats.
Proof.
  intros Hall. unfold run_scraper.
  match goal with |- context [foldl _ (db, ?s) stream] =>
    apply (foldl_process_resolved stream db s Hall)
  end.
Qed.

(** C4 (amended): a second run of the ingestion loop over the unchanged
    stream, with the same geocoder, creates no new Location row provided
    every geocodable record has a non-empty externalId and dataSource and
    its (dataSource, externalId) is stored after the first run: the table
    keeps its length and its identities, the created counter does not move
    and every such record is resolved by the identity tier. Every record
    the first run inserted has its identity stored after it. *)
Theorem second_run_creates_nothing db0 stats0 stats1 stream :
  let first := run_scraper geocode (db0, stats0) stream in
  let second := run_scraper geocode (first.1, stats1) stream in
  (∀ raw, raw ∈ stream → is_Some (geocode raw) →
     truthy (raw_external_id raw) = true ∧
     truthy (raw_data_source raw) = true ∧ has_identity first.1 raw) →
  length second.1 = length first.1 ∧
  identities second.1 = identities first.1 ∧
  total_created second.2 = total_created stats1 ∧
  (∀ raw, raw ∈ stream → is_Some (geocode raw) →
     is_Some (identity_match second.1 raw)) ∧
  (∀ pre raw post, stream = pre ++ raw :: post → is_Some (geocode raw) →
     find_match (run_scraper geocode (db0, stats0) pre).1 raw = None →
     has_identity first.1 raw).
Proof.
  intros first second Hall.
  destruct (run_scraper_resolved first.1 stats1 stream Hall) as [Hi Hc].
  fold second in Hi, Hc.
  split_and!.
  - pose proof (f_equal length Hi) as Hlen. unfold identities in Hlen.
    by rewrite !length_fmap in Hlen.
  - done.
  - done.
  - intros raw Hr Hg. destruct (Hall raw Hr Hg) as (He & Hd & Hid).
    unfold has_identity in Hid. rewrite <- Hi in Hid.
    apply has_identity_lookup in Hid as (i & l & Hl & Hs).
    unfold identity_match, query_first. rewrite He, Hd. simpl.
    eapply list_find_elem_of; [by eapply list_elem_of_lookup_2|done].
  - intros pre raw post -> Hg Hm. unfold first.
    rewrite run_scraper_table in Hm |- *.
    by apply inserted_record_has_identity.
Qed.

End proofs.

#[local] Existing Instance exact_lib.

(** C4, as the claim words it, fails: a record with an empty externalId and
    no borough is matched by neither tier, so every run inserts it again. *)
Lemma second_run_duplicates_anonymous_record :
  let first := run_scraper fixed_geocoder ([], stats0) [anonymous_pantry] in
  let second := run_scraper fixed_geocoder (first.1, stats0) [anonymous_pantry] in
  length first.1 = 1 ∧ length second.1 = 2 ∧ total_created second.2 = 1.
Proof. by vm_compute. Qed.

Lemma second_run_creates_nothing_witness :
  let first := run_scraper fixed_geocoder ([], stats0) [scraped_shelter] in
  let second := run_scraper fixed_geocoder (first.1, stats0) [scraped_shelter] in
  length first.1 = 1 ∧ length second.1 = length first.1.
Proof.
  intros first second. split; [reflexivity|].
  refine (proj1 (second_run_creates_nothing fixed_geocoder [] stats0 stats0
                   [scraped_shelter] _)).
  intros raw ->%list_elem_of_singleton _.
  split; [reflexivity|]. split; [reflexivity|].
  apply list_elem_of_singleton. reflexivity.
Defined.

End IngestionProofs.

(** * Further properties of the code *)

(** ** The haversine distance *)

Module HaversineProperties.
Import GeospatialService HaversineFacts.
Local Open Scope R_scope.

Lemma atan2_first_quadrant y x :
  0 <= y → 0 <= x → 0 <= atan2 y x <= PI / 2.
Proof.
  intros Hy Hx. pose proof PI_RGT_0. unfold atan2.
  destruct (decide (0 < x)) as [Hpos|Hnpos].
  - pose proof (atan_bound (y / x)) as [_ Hub]. split; [|lra].
    destruct Hy as [Hy | <-].
    + rewrite <- atan_0. left. apply atan_increasing.
      by apply Rdiv_lt_0_compat.
    + replace (0 / x) with 0 by (field; lra). rewrite atan_0. lra.
  - rewrite decide_False by lra.
    destruct (decide (0 < y)); [lra|]. rewrite decide_False by lra. lra.
Qed.

(** X1: the distance does not depend on the order of the two points. *)
Theorem haversine_distance_sym lat1 lon1 lat2 lon2 :
  haversine_distance lat1 lon1 lat2 lon2
  = haversine_distance lat2 lon2 lat1 lon1.
Proof.
  unfold haversine_distance.
  assert (Hneg : ∀ x y, sin (radians (x - y) / 2) ^ 2
                        = sin (radians (y - x) / 2) ^ 2).
  { intros x y.
    replace (radians (x - y) / 2) with (- (radians (y - x) / 2))
      by (unfold radians; lra).
    rewrite sin_neg. ring. }
  rewrite (Hneg lat2 lat1), (Hneg lon2 lon1).
  by rewrite (Rmult_comm (cos (radians lat1)) (cos (radians lat2))).
Qed.

Lemma haversine_distance_bounds lat1 lon1 lat2 lon2 :
  0 <= haversine_distance lat1 lon1 lat2 lon2 <= 6371000 * PI.
Proof.
  unfold haversine_distance.
  match goal with |- context [atan2 (sqrt ?a) (sqrt ?b)] =>
    pose proof (atan2_first_quadrant (sqrt a) (sqrt b)
                  (sqrt_pos a) (sqrt_pos b)) as [H0 H1]
  end.
  split; lra.
Qed.


(** X3: between two points of the same meridian the distance is
    [6371000 * PI / 180] meters per degree of latitude, which is more than
    the 111 km the bounding box of [find_nearby] assumes: between 111.19
    and 111.22 km. *)
Theorem haversine_distance_per_degree lat1 lat2 lon :
  -90 <= lat1 <= 90 → -90 <= lat2 <= 90 →
  haversine_distance lat1 lon lat2 lon
  = 6371000 * PI / 180 * Rabs (lat2 - lat1) ∧
  111190 * Rabs (lat2 - lat1) <= haversine_distance lat1 lon lat2 lon
    <= 111220 * Rabs (lat2 - lat1).
Proof.
  intros H1 H2. pose proof PI_lower. pose proof PI_upper.
  rewrite haversine_distance_same_meridian by done.
  unfold radians, Rdiv.
  rewrite !Rabs_mult, (Rabs_pos_eq PI), (Rabs_pos_eq (/ 180)) by lra.
  pose proof (Rabs_pos (lat2 - lat1)). split; [lra|]. split; nra.
Qed.

Lemma haversine_distance_per_degree_witness :
  111190 * Rabs (41 - 40) <= haversine_distance 40 (-74) 41 (-74).
Proof.
  refine (proj1 (proj2 (haversine_distance_per_degree 40 41 (-74) _ _))); lra.
Defined.

End HaversineProperties.

(** ** Open now *)

Module OpenNowProperties.
Import GeospatialService OpenNowSpec OpenNowProofs.

Lemma open_now_existsb now entries :
  _calculate_is_open_now now entries
  = existsb (entry_open (time_of_day now))
      (filter (λ e, day_of_week e = sunday_based (day_name now)) entries).
Proof.
  unfold _calculate_is_open_now.
  rewrite weekday_sunday_based, any_open_existsb.
  destruct entries as [|e entries]; [done|]. simpl negb. cbv iota.
  by destruct (filter _ _).
Qed.

Lemma open_now_true now entries :
  _calculate_is_open_now now entries = true ↔
  ∃ e, e ∈ entries ∧ day_of_week e = sunday_based (day_name now) ∧
       entry_open (time_of_day now) e = true.
Proof.
  rewrite open_now_existsb, existsb_exists. split.
  - intros (e & [Hd He]%list_elem_of_In%list_elem_of_filter & Ho). eauto.
  - intros (e & He & Hd & Ho). exists e. split; [|done].
    apply list_elem_of_In, list_elem_of_filter. done.
Qed.

(** X4: the evaluation depends only on which entries the schedule holds,
    not on their order nor on repetitions, and the schedule made of two
    lists is open exactly when one of the two is. *)
Theorem open_now_set_of_entries now :
  (∀ l1 l2, (∀ e, e ∈ l1 ↔ e ∈ l2) →
     _calculate_is_open_now now l1 = _calculate_is_open_now now l2) ∧
  (∀ l1 l2, _calculate_is_open_now now (l1 ++ l2)
            = _calculate_is_open_now now l1 || _calculate_is_open_now now l2).
Proof.
  split.
  - intros l1 l2 Heq. apply eq_true_iff_eq.
    rewrite !open_now_true. split; intros (e & He & ?); exists e;
      (split; [by apply Heq|done]).
  - intros l1 l2. apply eq_true_iff_eq.
    rewrite orb_true_iff, !open_now_true. split.
    + intros (e & [He|He]%elem_of_app & ?); [left|right]; eauto.
    + intros [(e & He & ?)|(e & He & ?)]; exists e;
        (split; [apply elem_of_app; eauto|done]).
Qed.

Lemma time_le_trans a b c :
  time_le a b = true → time_le b c = true → time_le a c = true.
Proof.
  destruct a as [h1 m1 s1 u1], b as [h2 m2 s2 u2], c as [h3 m3 s3 u3].
  unfold time_le. simpl.
  repeat case_decide; rewrite ?bool_decide_eq_true; try done; try lia.
Qed.

(** X5: an entry whose closing time is before its opening time (hours that
    run past midnight) and that is not flagged 24 hours is open at no time
    of the day: a schedule made of such entries is never open. *)
Theorem overnight_hours_never_open now entries :
  Forall (λ e, is_24_hours e = false ∧
               ∃ o c, open_time e = Some o ∧ close_time e = Some c ∧
                      time_le o c = false) entries →
  _calculate_is_open_now now entries = false.
Proof.
  intros Hall. apply not_true_is_false. intros (e & He & _ & Ho)%open_now_true.
  eapply Forall_forall in Hall as (H24 & o & c & Hopen & Hclose & Hoc); [|done].
  unfold entry_open, within_hours in Ho. rewrite H24, Hopen, Hclose in Ho.
  apply andb_true_iff in Ho as [_ [Ho1 Ho2]%andb_true_iff].
  by rewrite (time_le_trans _ _ _ Ho1 Ho2) in Hoc.
Qed.

Lemma overnight_hours_never_open_witness :
  _calculate_is_open_now (Examples.at_ Monday 23 0) [Examples2.ten_to_two]
  = false.
Proof.
  apply overnight_hours_never_open. constructor; [|constructor].
  split; [reflexivity|].
  exists (mk_time 22 0 0 0), (mk_time 2 0 0 0).
  split; [reflexivity|]. split; reflexivity.
Defined.

(** Two schedules with the same entries are open at the same times. *)
Lemma open_now_same_entries now l1 l2 :
  (∀ e, e ∈ l1 ↔ e ∈ l2) →
  _calculate_is_open_now now l1 = _calculate_is_open_now now l2.
Proof.
  intros Heq. apply eq_true_iff_eq. rewrite !open_now_true.
  split; intros (e & He & ?); exists e; (split; [by apply Heq|done]).
Qed.

End OpenNowProperties.

(** ** Nearby search, continued *)

Module NearbyProperties.
Import GeospatialService NearbySpec QuerySpec Examples Examples2.
Import HaversineFacts HaversineProperties NearbyProofs.
Import DeduplicatorProofs.

Lemma fst_imap_pair {A} (l : list A) n :
  fst <$> imap (λ i x, (n + i, x)) l = seq n (length l).
Proof.
  revert n. induction l as [|x l IH]; intros n; [done|]. simpl.
  rewrite Nat.add_0_r. f_equal. rewrite <- IH. f_equal.
  apply imap_ext. intros i y _. simpl. f_equal. lia.
Qed.

(** A query returns every row at most once. *)
Lemma query_all_NoDup {F} (P : ServiceLocation F → Prop)
    `{!∀ l, Decision (P l)} (db : list (ServiceLocation F)) :
  NoDup (fst <$> query_all P db).
Proof.
  unfold query_all.
  apply (sublist_NoDup _ (fst <$> imap pair db)).
  - pose proof (fst_imap_pair db 0) as Hseq.
    change (fst <$> imap pair db = seq 0 (length db)) in Hseq.
    rewrite Hseq. apply NoDup_seq.
  - apply fmap_sublist, sublist_filter.
Qed.

Lemma locations_with_distance_sublist lat lon radius_km locations :
  fst <$> locations_with_distance lat lon radius_km locations
  `sublist_of` locations.
Proof.
  induction locations as [|loc locations IH]; simpl; [done|].
  destruct (latitude loc.2), (longitude loc.2); try by constructor.
  case_decide; simpl; by constructor.
Qed.

Lemma elem_of_locations_with_distance lat lon radius_km locations loc la lo :
  loc ∈ locations → latitude loc.2 = Some la → longitude loc.2 = Some lo →
  (haversine_distance lat lon la lo <= radius_km * 1000)%R →
  (loc, haversine_distance lat lon la lo)
  ∈ locations_with_distance lat lon radius_km locations.
Proof.
  intros Hin Hla Hlo Hd. induction locations as [|loc' locations IH];
    [by apply elem_of_nil in Hin|].
  simpl. apply elem_of_cons in Hin as [<-|Hin].
  - rewrite Hla, Hlo. rewrite decide_True by done. by left.
  - specialize (IH Hin).
    destruct (latitude loc'.2), (longitude loc'.2); try done.
    case_decide; [by right|done].
Qed.

Lemma nearby_candidates_rows db lat lon radius_km service_types :
  NoDup ((fst ∘ fst) <$> nearby_candidates db lat lon radius_km service_types) ∧
  Forall (λ c, db !! c.1.1 = Some c.1.2 ∧
               selected lat lon radius_km service_types c.1.2)
    (nearby_candidates db lat lon radius_km service_types).
Proof.
  unfold nearby_candidates, selected, in_prefilter, bounding_box.
  cbv beta zeta iota. rewrite sort_by_Permutation.
  match goal with |- context [locations_with_distance _ _ _ ?q] =>
    set (locations := q);
    pose proof (locations_with_distance_sublist lat lon radius_km locations)
      as Hsub
  end.
  split.
  - rewrite list_fmap_compose.
    apply (sublist_NoDup _ (fst <$> locations)); [|by apply fmap_sublist].
    unfold locations. destruct service_types as [[|??]|]; apply query_all_NoDup.
  - apply Forall_forall. intros [[i l] d] Hc.
    assert ((i, l) ∈ locations) as Hin.
    { eapply elem_of_sublist; [|exact Hsub]. by apply (list_elem_of_fmap_2 fst) in Hc. }
    unfold locations in Hin. simpl.
    destruct service_types as [[|??]|];
      apply elem_of_query_all in Hin as [??]; tauto.
Qed.

Lemma in_prefilter_not_deleted lat lon radius_km l :
  in_prefilter lat lon radius_km l → deleted_at l = None.
Proof.
  unfold in_prefilter, bounding_box, in_box. cbv beta zeta iota. tauto.
Qed.

(** The candidates [find_nearby] turns into responses. *)
Lemma find_nearby_chosen now db lat lon radius_km service_types open_now limit :
  ∃ chosen,
    find_nearby now db lat lon radius_km service_types open_now limit
    = response_of now <$> chosen ∧
    chosen `sublist_of` nearby_candidates db lat lon radius_km service_types.
Proof.
  eexists. split; [apply find_nearby_kept|apply kept_sublist].
Qed.

(** X6: [find_nearby] returns no location twice, and every returned
    location is a stored row that is not soft-deleted, lies inside the
    bounding box and, when a non-empty category filter is given, holds one
    of the categories; the response repeats the row's name, services and
    hours and carries the open-now value of those hours. *)
Theorem find_nearby_distinct_stored_rows now db lat lon radius_km
    service_types open_now limit :
  let found :=
    find_nearby now db lat lon radius_km service_types open_now limit in
  NoDup (resp_id <$> found) ∧
  Forall (λ r, ∃ l,
            db !! resp_id r = Some l ∧ deleted_at l = None ∧
            selected lat lon radius_km service_types l ∧
            resp_name r = name l ∧
            resp_services r = location_services l ∧
            resp_operating_hours r = operating_hours l ∧
            resp_is_open_now r
            = _calculate_is_open_now now (operating_hours l)) found.
Proof.
  intros found. unfold found.
  destruct (find_nearby_chosen now db lat lon radius_km service_types
              open_now limit) as (chosen & -> & Hsub).
  destruct (nearby_candidates_rows db lat lon radius_km service_types)
    as [Hnd Hrows].
  split.
  - rewrite <- list_fmap_compose.
    apply (sublist_NoDup _ _ Hnd). by apply fmap_sublist.
  - apply Forall_fmap, Forall_forall. intros c Hc.
    eapply Forall_forall in Hrows as [Hl Hsel];
      [|by eapply elem_of_sublist]. simpl.
    exists c.1.2. split_and!; try done.
    eapply in_prefilter_not_deleted, Hsel.
Qed.

(** X7: no false negatives end to end. Away from the poles and the
    antimeridian, with a limit that does not truncate, [find_nearby] returns
    every stored, non-deleted location within the radius that passes the
    category and open-now filters. *)
Theorem find_nearby_complete now db lat lon radius_km service_types open_now
    limit i l la lo :
  db !! i = Some l → deleted_at l = None →
  latitude l = Some la → longitude l = Some lo →
  (-90 < lat < 90)%R → (-90 <= la <= 90)%R → (-180 <= lo - lon <= 180)%R →
  (0 < radius_km <= 600 * cos (radians lat))%R →
  (haversine_distance lat lon la lo <= radius_km * 1000)%R →
  match service_types with
  | Some ((_ :: _) as slugs) => has_service_type slugs l
  | _ => True
  end →
  (open_now = true → _calculate_is_open_now now (operating_hours l) = true) →
  (Z.of_nat (length db) ≤ limit `min` 500)%Z →
  ∃ r, r ∈ find_nearby now db lat lon radius_km service_types open_now limit ∧
       resp_id r = i ∧ resp_name r = name l.
Proof.
  intros Hl Hdel Hla Hlo Hlat Hla' Hlo' Hr Hd Hst Hopen Hlimit.
  set (c := ((i, l), haversine_distance lat lon la lo)).
  exists (response_of now c). split; [|done].
  rewrite find_nearby_kept. apply list_elem_of_fmap_2.
  apply list_elem_of_filter. split; [exact Hopen|].
  assert (Hbox : in_prefilter lat lon radius_km l).
  { pose proof (latitude_in_box lat lon radius_km la lo
                  ltac:(lra) Hla' Hd).
    pose proof (longitude_in_box lat lon radius_km la lo
                  Hlat Hla' Hlo' ltac:(lra) Hd).
    unfold in_prefilter, bounding_box, in_box. cbv beta zeta iota.
    rewrite Hla, Hlo. split; [done|]. lra. }
  assert (Hc : c ∈ nearby_candidates db lat lon radius_km service_types).
  { revert Hbox. unfold nearby_candidates, in_prefilter, bounding_box.
    cbv beta zeta iota. intros Hbox. rewrite sort_by_Permutation.
    apply elem_of_locations_with_distance; [|done..].
    destruct service_types as [[|??]|]; by apply elem_of_query_all. }
  rewrite slice_to_take by lia. rewrite take_ge; [done|].
  assert (length (nearby_candidates db lat lon radius_km service_types)
          ≤ length db); [|lia].
  unfold nearby_candidates, bounding_box. cbv beta zeta iota.
  rewrite sort_by_Permutation.
  match goal with |- context [locations_with_distance _ _ _ ?q] =>
    pose proof (sublist_length _ _
      (locations_with_distance_sublist lat lon radius_km q)) as Hlen1;
    assert (length q ≤ length db) as Hlen2
  end.
  { destruct service_types as [[|??]|]; unfold query_all;
      (etrans; [apply length_filter|by rewrite length_imap]). }
  rewrite length_fmap in Hlen1. lia.
Qed.

Lemma find_nearby_complete_witness :
  ∃ r, r ∈ find_nearby (at_ Monday 12 0) [food_place] 0 0 1
             (Some ["food"%string]) false 10 ∧
       resp_id r = 0 ∧ resp_name r = name food_place.
Proof.
  refine (find_nearby_complete (at_ Monday 12 0) [food_place] 0 0 1
            (Some ["food"%string]) false 10 0 food_place 0%R 0%R
            eq_refl eq_refl eq_refl eq_refl _ _ _ _ _ _ _ _).
  - lra.
  - lra.
  - lra.
  - rewrite radians_0, cos_0. lra.
  - rewrite haversine_distance_self. lra.
  - apply Exists_cons_hd. simpl. by left.
  - done.
  - simpl. lia.
Defined.

(** X8: a negative radius finds nothing. *)
Theorem find_nearby_negative_radius now db lat lon radius_km service_types
    open_now limit :
  (radius_km < 0)%R →
  find_nearby now db lat lon radius_km service_types open_now limit = [].
Proof.
  intros Hneg.
  assert (Hnone : ∀ locations,
            locations_with_distance lat lon radius_km locations = []).
  { induction locations as [|loc locations IH]; simpl; [done|].
    destruct (latitude loc.2) as [la|], (longitude loc.2) as [lo|]; try done.
    pose proof (haversine_distance_bounds lat lon la lo).
    by rewrite decide_False by lra. }
  unfold find_nearby, nearby_candidates, bounding_box. cbv beta zeta iota.
  rewrite Hnone. simpl. unfold slice_to. case_decide; by rewrite take_nil.
Qed.

Lemma find_nearby_negative_radius_witness :
  find_nearby (at_ Monday 12 0) [place "A" []] 0 0 (-1) None false 10 = [].
Proof.
  apply find_nearby_negative_radius. lra.
Defined.

Lemma round2_error x : (Rabs (round2 x - x) <= 1 / 200)%R.
Proof.
  unfold round2.
  pose proof (base_fp (x * 100)) as [Hf0 Hf1].
  assert (Hy : (x * 100 = IZR (Int_part (x * 100)) + frac_part (x * 100))%R)
    by (unfold frac_part; lra).
  set (n := Int_part (x * 100)) in *. set (f := frac_part (x * 100)) in *.
  apply Rabs_le.
  destruct (decide (f < 1 / 2)%R); [lra|].
  destruct (decide (1 / 2 < f)%R); [rewrite plus_IZR; lra|].
  destruct (Z.even n); [lra|rewrite plus_IZR; lra].
Qed.

(** X9: the [distance_km] of a returned location is its haversine distance
    from the query center in kilometers, rounded to within 0.005 km. *)
Theorem find_nearby_distance_km now db lat lon radius_km service_types
    open_now limit :
  Forall (λ r, (Rabs (resp_distance_km r - center_distance lat lon r / 1000)
                <= 1 / 200)%R)
    (find_nearby now db lat lon radius_km service_types open_now limit).
Proof.
  destruct (find_nearby_chosen now db lat lon radius_km service_types
              open_now limit) as (chosen & -> & Hsub).
  apply Forall_fmap, Forall_forall. intros c Hc. simpl.
  pose proof (nearby_candidates_measured db lat lon radius_km service_types)
    as Hm.
  eapply Forall_forall in Hm; [|by eapply elem_of_sublist].
  rewrite (center_distance_response_of _ _ _ radius_km) by done.
  apply round2_error.
Qed.

End NearbyProperties.

(** ** Search in bounds *)

Module BoundsProperties.
Import GeospatialService NearbySpec QuerySpec Examples Examples2.
Import NearbyProofs NearbyProperties DeduplicatorProofs.

Lemma bounds_responses_filter now open_now center locations :
  bounds_responses now open_now center locations
  = bounds_response_of now center <$>
      filter (bounds_kept now open_now) locations.
Proof.
  induction locations as [|[i l] locations IH]; [done|].
  cbn [bounds_responses]. rewrite filter_cons.
  destruct (decide (bounds_kept now open_now (i, l))) as [(Hla & Hlo & Ho)|Hk].
  - destruct Hla as [la Hla], Hlo as [lo Hlo]. cbn [snd] in *.
    rewrite Hla, Hlo.
    replace (open_now && negb (_calculate_is_open_now now (operating_hours l)))
      with false by (destruct open_now; [by rewrite Ho|done]).
    rewrite fmap_cons, IH. f_equal.
    unfold bounds_response_of. cbn [snd].
    rewrite Hla, Hlo. by destruct center as [[??]|].
  - unfold bounds_kept in Hk. cbn [snd] in *.
    destruct (latitude l) as [la|] eqn:Hla; [|done].
    destruct (longitude l) as [lo|] eqn:Hlo; [|done].
    destruct open_now,
      (_calculate_is_open_now now (operating_hours l)) eqn:Hopen;
      simpl; try done; exfalso; apply Hk; split_and!; eauto; done.
Qed.

(** The rows the query of [find_in_bounds] yields, before the limit. *)
Lemma find_in_bounds_rows now db min_lat max_lat min_lng max_lng
    center_lat center_lng service_types exclude_service_types open_now limit :
  (0 ≤ limit)%Z →
  ∃ rows,
    find_in_bounds now db min_lat max_lat min_lng max_lng center_lat
      center_lng service_types exclude_service_types open_now limit
    = Return (bounds_response_of now
                match center_lat, center_lng with
                | Some a, Some b => Some (a, b)
                | _, _ => None
                end <$>
              filter (bounds_kept now open_now)
                (take (Z.to_nat (limit `min` 100)) rows)) ∧
    NoDup (fst <$> rows) ∧
    Forall (λ loc, db !! loc.1 = Some loc.2 ∧
                   in_box min_lat max_lat min_lng max_lng loc.2 ∧
                   category_rule service_types exclude_service_types loc.2)
      rows ∧
    (∀ a b, center_lat = Some a → center_lng = Some b →
       match service_types with Some (_ :: _) => False | _ => True end →
       StronglySorted (by_key (distance_expr a b)) rows).
Proof.
  intros Hlimit. unfold find_in_bounds. rewrite decide_False by lia.
  rewrite bounds_responses_filter. eexists. split; [reflexivity|].
  set (center := match center_lat, center_lng with
                 | Some a, Some b => Some (a, b) | _, _ => None end).
  assert (Hq : ∀ (P : ServiceLocation R → Prop) `{!∀ l, Decision (P l)},
            NoDup (fst <$> query_all P db) ∧
            Forall (λ loc, db !! loc.1 = Some loc.2 ∧ P loc.2)
              (query_all P db)).
  { intros P ?. split; [apply query_all_NoDup|].
    apply Forall_forall. intros [i l]. by rewrite elem_of_query_all. }
  assert (Hord : ∀ rows : list (nat * ServiceLocation R),
            match center with
            | Some (a, b) => sort_by (distance_expr a b) rows
            | None => rows
            end ≡ₚ rows).
  { intros rows. destruct center as [[??]|]; [apply sort_by_Permutation|done]. }
  unfold category_rule.
  destruct service_types as [[|s ss]|], exclude_service_types as [[|e es]|];
    rewrite ?Hord; split_and!;
    try (apply Hq); try (eapply Forall_impl; [apply Hq|]; simpl; tauto);
    try (by intros; exfalso);
    intros a b -> -> _; apply sort_by_sorted.
Qed.

Lemma StronglySorted_sublist_of {A} (R : relation A) (l1 l2 : list A) :
  l1 `sublist_of` l2 → StronglySorted R l2 → StronglySorted R l1.
Proof.
  induction 1 as [|x l1 l2 Hsub IH|x l1 l2 Hsub IH]; intros Hs; [done|..].
  - apply StronglySorted_inv in Hs as [Hs Hx]. constructor; [by apply IH|].
    by apply (Forall_sublist _ l1 l2).
  - apply StronglySorted_inv in Hs as [Hs _]. by apply IH.
Qed.

Lemma seq_sorted n k : StronglySorted lt (seq n k).
Proof.
  revert n. induction k as [|k IH]; intros n; simpl; constructor; [done|].
  apply Forall_forall. intros i Hi. apply elem_of_seq in Hi. lia.
Qed.

(** A query without [order_by] yields the rows by increasing primary key. *)
Lemma query_all_increasing {F} (P : ServiceLocation F → Prop)
    `{!∀ l, Decision (P l)} (db : list (ServiceLocation F)) :
  StronglySorted lt (fst <$> query_all P db).
Proof.
  unfold query_all.
  apply (StronglySorted_sublist_of _ _ (fst <$> imap pair db)).
  - apply fmap_sublist, sublist_filter.
  - pose proof (fst_imap_pair db 0) as Hseq.
    change (fst <$> imap pair db = seq 0 (length db)) in Hseq.
    rewrite Hseq. apply seq_sorted.
Qed.

Lemma bounds_kept_sublist now open_now n (rows : list (nat * ServiceLocation R)) :
  filter (bounds_kept now open_now) (take n rows) `sublist_of` rows.
Proof. etrans; [apply sublist_filter|apply sublist_take]. Qed.

(** X10: with a limit that is not negative, [find_in_bounds] returns at
    most min(limit, 100) locations, none twice; each is a stored row that
    is not soft-deleted, lies inside the box (both ends included) and passes
    the category rule: a non-empty inclusion list selects, otherwise a
    non-empty exclusion list excludes. The response carries the open-now
    value of the row's hours, which is true for every result when
    [open_now] is set. *)
Theorem find_in_bounds_bounded_stored_rows now db min_lat max_lat min_lng
    max_lng center_lat center_lng service_types exclude_service_types
    open_now limit :
  (0 ≤ limit)%Z →
  ∃ found,
    find_in_bounds now db min_lat max_lat min_lng max_lng center_lat
      center_lng service_types exclude_service_types open_now limit
    = Return found ∧
    length found ≤ Z.to_nat (limit `min` 100) ∧
    NoDup (resp_id <$> found) ∧
    Forall (λ r, ∃ l,
              db !! resp_id r = Some l ∧
              in_box min_lat max_lat min_lng max_lng l ∧
              category_rule service_types exclude_service_types l ∧
              resp_name r = name l ∧
              resp_is_open_now r
              = _calculate_is_open_now now (operating_hours l) ∧
              (open_now = true → resp_is_open_now r = true)) found.
Proof.
  intros Hlimit.
  destruct (find_in_bounds_rows now db min_lat max_lat min_lng max_lng
              center_lat center_lng service_types exclude_service_types
              open_now limit Hlimit) as (rows & -> & Hnd & Hrows & _).
  eexists. split; [reflexivity|].
  pose proof (bounds_kept_sublist now open_now
                (Z.to_nat (limit `min` 100)) rows) as Hsub.
  split_and!.
  - rewrite length_fmap. etrans; [apply length_filter|].
    rewrite length_take. lia.
  - rewrite <- list_fmap_compose.
    apply (sublist_NoDup _ _ Hnd). by apply (fmap_sublist fst) in Hsub.
  - apply Forall_fmap, Forall_forall. intros loc Hloc.
    apply list_elem_of_filter in Hloc as [(_ & _ & Hopen) Hloc].
    eapply Forall_forall in Hrows as (Hl & Hbox & Hcat);
      [|eapply elem_of_sublist; [exact Hloc|apply sublist_take]].
    exists loc.2. simpl. split_and!; done.
Qed.

Lemma find_in_bounds_bounded_stored_rows_witness :
  ∃ found,
    find_in_bounds (at_ Monday 12 0) [place "A" []] (-1) 1 (-1) 1
      None None None None false 10 = Return found ∧
    length found ≤ Z.to_nat (10 `min` 100) ∧
    NoDup (resp_id <$> found) ∧
    Forall (λ r, ∃ l,
              [place "A" []] !! resp_id r = Some l ∧
              in_box (-1) 1 (-1) 1 l ∧
              category_rule None None l ∧
              resp_name r = name l ∧
              resp_is_open_now r
              = _calculate_is_open_now (at_ Monday 12 0) (operating_hours l) ∧
              (false = true → resp_is_open_now r = true)) found.
Proof.
  apply (find_in_bounds_bounded_stored_rows (at_ Monday 12 0) [place "A" []]
           (-1) 1 (-1) 1 None None None None false 10).
  lia.
Defined.

(** X11: with both center coordinates and no inclusion list,
    [find_in_bounds] returns the locations in non-decreasing order of the
    Euclidean distance in degrees from the center, and the [distance_km] of
    each is its haversine distance from the center in kilometers. *)
Theorem find_in_bounds_sorted_by_degrees now db min_lat max_lat min_lng
    max_lng a b service_types exclude_service_types open_now limit :
  (0 ≤ limit)%Z →
  match service_types with Some (_ :: _) => False | _ => True end →
  ∃ found,
    find_in_bounds now db min_lat max_lat min_lng max_lng (Some a) (Some b)
      service_types exclude_service_types open_now limit
    = Return found ∧
    StronglySorted (by_key (degree_distance a b)) found ∧
    Forall (λ r, resp_distance_km r = (center_distance a b r / 1000)%R) found.
Proof.
  intros Hlimit Hst.
  destruct (find_in_bounds_rows now db min_lat max_lat min_lng max_lng
              (Some a) (Some b) service_types exclude_service_types
              open_now limit Hlimit) as (rows & -> & _ & _ & Hs).
  specialize (Hs a b eq_refl eq_refl Hst).
  eexists. split; [reflexivity|]. split.
  - apply (StronglySorted_fmap _ (by_key (distance_expr a b))); [done|].
    eapply StronglySorted_sublist; [|exact Hs].
    apply bounds_kept_sublist.
  - apply Forall_fmap, Forall_forall. intros [i l] Hloc.
    apply list_elem_of_filter in Hloc as [([la Hla] & [lo Hlo] & _) _].
    simpl in *. unfold center_distance, bounds_response_of. simpl.
    by rewrite Hla, Hlo.
Qed.

Lemma find_in_bounds_sorted_by_degrees_witness :
  ∃ found,
    find_in_bounds (at_ Monday 12 0) [place "A" []] (-1) 1 (-1) 1
      (Some 0%R) (Some 0%R) None None false 10 = Return found ∧
    StronglySorted (by_key (degree_distance 0 0)) found ∧
    Forall (λ r, resp_distance_km r = (center_distance 0 0 r / 1000)%R) found.
Proof.
  apply (find_in_bounds_sorted_by_degrees (at_ Monday 12 0) [place "A" []]
           (-1) 1 (-1) 1 0 0 None None false 10); [lia|exact I].
Defined.

(** X12: with a non-empty inclusion list and both center coordinates,
    [find_in_bounds] orders by primary key before the distance: the
    locations come back by increasing id, whatever their distance. *)
Theorem find_in_bounds_inclusion_by_id now db min_lat max_lat min_lng
    max_lng a b slug slugs exclude_service_types open_now limit :
  (0 ≤ limit)%Z →
  ∃ found,
    find_in_bounds now db min_lat max_lat min_lng max_lng (Some a) (Some b)
      (Some (slug :: slugs)) exclude_service_types open_now limit
    = Return found ∧
    StronglySorted lt (resp_id <$> found).
Proof.
  intros Hlimit. unfold find_in_bounds. rewrite decide_False by lia.
  rewrite bounds_responses_filter. eexists. split; [reflexivity|].
  rewrite <- list_fmap_compose.
  match goal with |- context [take _ ?q] =>
    apply (StronglySorted_sublist_of _ _ (fst <$> q))
  end; [|apply query_all_increasing].
  apply (fmap_sublist fst), bounds_kept_sublist.
Qed.

Lemma find_in_bounds_inclusion_by_id_witness :
  ∃ found,
    find_in_bounds (at_ Monday 12 0) [place "A" []] (-1) 1 (-1) 1
      (Some 0%R) (Some 0%R) (Some ["food"%string]) None false 10
    = Return found ∧
    StronglySorted lt (resp_id <$> found).
Proof.
  apply (find_in_bounds_inclusion_by_id (at_ Monday 12 0) [place "A" []]
           (-1) 1 (-1) 1 0 0 "food"%string [] None false 10).
  lia.
Defined.

(** X29: no false negatives. With a limit that does not truncate,
    [find_in_bounds] returns every stored, non-deleted location inside the
    box that passes the category rule and, when [open_now] is set, is
    open. *)
Theorem find_in_bounds_complete now db min_lat max_lat min_lng max_lng
    center_lat center_lng service_types exclude_service_types open_now limit
    i l :
  db !! i = Some l →
  in_box min_lat max_lat min_lng max_lng l →
  category_rule service_types exclude_service_types l →
  (open_now = true → _calculate_is_open_now now (operating_hours l) = true) →
  (Z.of_nat (length db) ≤ limit `min` 100)%Z →
  ∃ found r,
    find_in_bounds now db min_lat max_lat min_lng max_lng center_lat
      center_lng service_types exclude_service_types open_now limit
    = Return found ∧
    r ∈ found ∧ resp_id r = i ∧ resp_name r = name l.
Proof.
  intros Hl Hbox Hcat Hopen Hlimit.
  unfold find_in_bounds. rewrite decide_False by lia.
  rewrite bounds_responses_filter.
  eexists _, (bounds_response_of now _ (i, l)).
  split; [reflexivity|]. split; [|done].
  apply list_elem_of_fmap_2, list_elem_of_filter. split.
  { destruct Hbox as [_ Hbox]. unfold bounds_kept. simpl.
    destruct (latitude l), (longitude l); done. }
  assert (Hq : ∀ (P : ServiceLocation R → Prop) `{!∀ l, Decision (P l)},
            length (query_all P db) ≤ length db).
  { intros P ?. unfold query_all.
    etrans; [apply length_filter|by rewrite length_imap]. }
  assert (Hord : ∀ rows : list (nat * ServiceLocation R),
            match
              match center_lat, center_lng with
              | Some a, Some b => Some (a, b)
              | _, _ => None
              end
            with
            | Some (a, b) => sort_by (distance_expr a b) rows
            | None => rows
            end ≡ₚ rows).
  { intros rows. destruct center_lat, center_lng;
      [apply sort_by_Permutation|done..]. }
  unfold category_rule in Hcat.
  destruct service_types as [[|s ss]|], exclude_service_types as [[|e es]|];
    (rewrite take_ge;
     [|rewrite ?Hord; etrans; [apply Hq|lia]]);
    rewrite ?Hord; by apply elem_of_query_all.
Qed.

Lemma find_in_bounds_complete_witness :
  ∃ found r,
    find_in_bounds (at_ Monday 12 0) [food_place] (-1) 1 (-1) 1 None None
      (Some ["food"%string]) None false 10 = Return found ∧
    r ∈ found ∧ resp_id r = 0 ∧ resp_name r = name food_place.
Proof.
  refine (find_in_bounds_complete (at_ Monday 12 0) [food_place] (-1) 1 (-1) 1
            None None (Some ["food"%string]) None false 10 0 food_place
            eq_refl _ _ _ _).
  - split; [reflexivity|]. simpl. lra.
  - simpl. apply Exists_cons_hd. simpl. by left.
  - done.
  - simpl. lia.
Defined.

(** X13: without both center coordinates every returned location has
    [distance_km] 0. *)
Theorem find_in_bounds_no_center now db min_lat max_lat min_lng max_lng
    center_lat center_lng service_types exclude_service_types open_now limit :
  center_lat = None ∨ center_lng = None →
  match find_in_bounds now db min_lat max_lat min_lng max_lng center_lat
          center_lng service_types exclude_service_types open_now limit with
  | Return found => Forall (λ r, resp_distance_km r = 0%R) found
  | Raise _ => True
  end.
Proof.
  intros Hc. unfold find_in_bounds. case_decide; [done|].
  rewrite bounds_responses_filter.
  apply Forall_fmap, Forall_forall. intros loc _. simpl.
  destruct center_lat, center_lng; try done. by destruct Hc.
Qed.

Lemma find_in_bounds_no_center_witness :
  match find_in_bounds (at_ Monday 12 0) [place "A" []] (-1) 1 (-1) 1
          (Some 0%R) None None None false 10 with
  | Return found => Forall (λ r, resp_distance_km r = 0%R) found
  | Raise _ => True
  end.
Proof.
  apply (find_in_bounds_no_center (at_ Monday 12 0) [place "A" []]
           (-1) 1 (-1) 1 (Some 0%R) None None None false 10).
  right; reflexivity.
Defined.

End BoundsProperties.

(** ** Scrapers and the geocoder *)

Module ScraperProperties.
Import BaseScraper Geocoder StoreSpec Examples Examples2.

Lemma validate_result_true data :
  validate_result data = true ↔
  raw_name data ≠ ""%string ∧
  (∃ a, raw_street_address data = Some a ∧ a ≠ ""%string) ∧
  raw_service_types data ≠ [].
Proof.
  unfold validate_result.
  destruct (raw_name data), (raw_street_address data) as [[|??]|],
    (raw_service_types data); simpl; split; try done;
    try (intros (? & (? & ? & ?) & ?); by simplify_eq).
  intros _. split_and!; [done|by eexists|done].
Qed.

(** X14: [run] returns the scraped records that have a non-empty name, a
    non-empty street address and at least one service type, all of them and
    in the scraped order; when scraping raises it returns the empty list. *)
Theorem run_keeps_valid_records {E} (scrape : result E (list RawServiceData)) :
  Forall (λ d, raw_name d ≠ ""%string ∧
               (∃ a, raw_street_address d = Some a ∧ a ≠ ""%string) ∧
               raw_service_types d ≠ []) (run scrape) ∧
  match scrape with
  | Return raw_data =>
      run scrape `sublist_of` raw_data ∧
      ∀ d, d ∈ raw_data → validate_result d = true → d ∈ run scrape
  | Raise _ => run scrape = []
  end.
Proof.
  destruct scrape as [raw_data|e]; simpl; [|done]. split_and!.
  - apply Forall_forall. intros d [Hv _]%list_elem_of_filter.
    by apply validate_result_true.
  - apply sublist_filter.
  - intros d Hd Hv. by apply list_elem_of_filter.
Qed.

Lemma _borough_center_known b :
  b ∈ known_boroughs → is_Some (_borough_center b).
Proof.
  unfold known_boroughs. rewrite !elem_of_cons, elem_of_nil.
  intros [-> | [-> | [-> | [-> | [-> | []]]]]]; by eexists.
Qed.

Lemma geocode_with_fallback_known nominatim address city state zip_code b :
  b ∈ known_boroughs →
  is_Some (geocode_with_fallback nominatim address city state zip_code
             (Some b)).
Proof.
  intros Hb. unfold geocode_with_fallback.
  destruct (geocode nominatim address city state); [done|].
  destruct (if truthy zip_code then _ else _); [done|].
  destruct (_borough_center_known b Hb) as [c Hc].
  assert (truthy b = true) as ->; [|by rewrite Hc].
  destruct b; [|done]. by vm_compute in Hc.
Qed.

(** X15: for a record of one of the five boroughs [_borough_center] knows,
    [geocode_with_fallback] returns coordinates whatever Nominatim
    answers, and whatever the address and the ZIP code are. *)
Theorem geocode_with_fallback_known_borough nominatim address city state
    zip_code b :
  b ∈ known_boroughs →
  is_Some (geocode_with_fallback nominatim address city state zip_code
             (Some b)).
Proof. apply geocode_with_fallback_known. Qed.

Lemma geocode_with_fallback_known_borough_witness :
  is_Some (geocode_with_fallback offline (Some "1 Main St"%string)
             "New York" "NY" None (Some "Bronx"%string)).
Proof.
  apply geocode_with_fallback_known_borough.
  unfold known_boroughs. rewrite !elem_of_cons. do 3 right. left. reflexivity.
Defined.

(** X16: when Nominatim answers no request, the result of
    [geocode_with_fallback] is the center of the borough, and none when the
    borough is missing or not one [_borough_center] knows. *)
Theorem geocode_with_fallback_offline nominatim address city state zip_code
    borough :
  (∀ q, nominatim q = None) →
  geocode_with_fallback nominatim address city state zip_code borough
  = borough ≫= _borough_center.
Proof.
  intros Hoff.
  assert (Hg : ∀ a, geocode nominatim a city state = None).
  { intros [a|]; [|done]. unfold geocode. by destruct (negb (truthy a)). }
  unfold geocode_with_fallback. rewrite !Hg.
  destruct (truthy zip_code); destruct borough as [[|??]|]; done.
Qed.

Lemma geocode_with_fallback_offline_witness :
  geocode_with_fallback offline (Some "1 Main St"%string) "New York" "NY"
    None (Some "Bronx"%string)
  = Some "Bronx"%string ≫= _borough_center.
Proof.
  apply geocode_with_fallback_offline. intros q. reflexivity.
Defined.

End ScraperProperties.

(** ** The ingestion loop, continued *)

Module IngestionProperties.
Import Deduplicator Ingestion IngestionSpec StoreSpec Geocoder.
Import DeduplicatorProofs IngestionProofs ScraperProperties Examples Examples2.

Section proofs.
Context {F : Type} {lib : StrLib}.
Context (geocode : RawServiceData → option (F * F)).
Implicit Types (db : list (ServiceLocation F)) (raw : RawServiceData).
Implicit Types (stats : Stats) (stream : list RawServiceData).

Lemma extends_refl db : extends db db.
Proof. split; [done|]. intros i l Hl. by exists l. Qed.

Lemma extends_trans db1 db2 db3 :
  extends db1 db2 → extends db2 db3 → extends db1 db3.
Proof.
  intros [Hlen1 H1] [Hlen2 H2]. split; [lia|]. intros i l Hl.
  destruct (H1 i l Hl) as (l' & Hl' & Hf').
  destruct (H2 i l' Hl') as (l'' & Hl'' & Hf'').
  exists l''. split; [done|]. unfold same_fixed_columns in *.
  intuition congruence.
Qed.

Lemma same_fixed_columns_updated (l : ServiceLocation F) raw lat lon :
  same_fixed_columns l (updated l raw lat lon).
Proof. by unfold same_fixed_columns. Qed.

Lemma process_extends db stats raw :
  extends db (process geocode (db, stats) raw).1.
Proof.
  rewrite process_table. destruct (geocode raw) as [[lat lon]|];
    [|apply extends_refl].
  destruct (find_match db raw) as [[i l]|] eqn:Hm.
  - apply find_match_lookup in Hm. split; [by rewrite length_insert|].
    intros j y Hj. destruct (decide (j = i)) as [->|Hne].
    + eexists. split; [apply list_lookup_insert_eq; by eapply lookup_lt_Some|].
      simplify_eq. apply same_fixed_columns_updated.
    + exists y. by rewrite list_lookup_insert_ne.
  - split; [rewrite length_app; lia|]. intros j y Hj. exists y.
    split; [by apply lookup_app_l_Some|done].
Qed.

Lemma foldl_process_extends stream db stats :
  extends db (foldl (process geocode) (db, stats) stream).1.
Proof.
  revert db stats. induction stream as [|raw stream IH]; intros db stats;
    cbn [foldl]; [apply extends_refl|].
  pose proof (process_extends db stats raw) as Hp.
  destruct (process geocode (db, stats) raw) as [db' stats'].
  eapply extends_trans; [exact Hp|apply IH].
Qed.

Lemma run_all_scrapers_extends sources db stats :
  extends db (foldl (run_scraper geocode) (db, stats) sources).1.
Proof.
  revert db stats. induction sources as [|stream sources IH]; intros db stats;
    cbn [foldl]; [apply extends_refl|].
  pose proof (foldl_process_extends stream db stats) as Hp.
  rewrite <- run_scraper_table in Hp.
  destruct (run_scraper geocode (db, stats) stream) as [db' stats'].
  eapply extends_trans; [exact Hp|apply IH].
Qed.

(** X17: a run of the ingestion loop keeps every stored row at its
    position and never writes its upstream identity, its address columns,
    its verification flag or its soft-delete mark: rows are only updated in
    the other columns or appended. *)
Theorem ingestion_keeps_stored_rows db sources :
  extends db (run_all_scrapers geocode db sources).1.
Proof. apply run_all_scrapers_extends. Qed.

(** What one iteration does to the counters and to the number of rows. *)
Lemma process_counters db stats raw :
  let r := process geocode (db, stats) raw in
  total_scraped r.2 = total_scraped stats ∧
  total_valid r.2 = total_valid stats ∧
  total_geocoded r.2 + total_failed r.2
  = total_geocoded stats + total_failed stats + 1 ∧
  total_created r.2 + total_updated r.2 + total_geocoded stats
  = total_created stats + total_updated stats + total_geocoded r.2 ∧
  length r.1 + total_created stats = length db + total_created r.2 ∧
  total_failed stats ≤ total_failed r.2 ∧
  total_created stats ≤ total_created r.2 ∧
  (is_Some (geocode raw) → total_failed r.2 = total_failed stats).
Proof.
  unfold process, create_or_update.
  destruct (geocode raw) as [[lat lon]|]; simpl.
  - destruct (find_match db raw) as [[i l]|]; simpl;
      rewrite ?length_insert, ?length_app; simpl; split_and!; try lia; done.
  - split_and!; try lia. by intros [??].
Qed.

Lemma foldl_process_counters stream db stats :
  let r := foldl (process geocode) (db, stats) stream in
  total_scraped r.2 = total_scraped stats ∧
  total_valid r.2 = total_valid stats ∧
  total_geocoded r.2 + total_failed r.2
  = total_geocoded stats + total_failed stats + length stream ∧
  total_created r.2 + total_updated r.2 + total_geocoded stats
  = total_created stats + total_updated stats + total_geocoded r.2 ∧
  length r.1 + total_created stats = length db + total_created r.2 ∧
  total_failed stats ≤ total_failed r.2 ∧
  total_created stats ≤ total_created r.2 ∧
  ((∀ raw, raw ∈ stream → is_Some (geocode raw)) →
   total_failed r.2 = total_failed stats).
Proof.
  revert db stats. induction stream as [|raw stream IH]; intros db stats;
    cbn [foldl]; [simpl; split_and!; try lia; done|].
  pose proof (process_counters db stats raw) as Hp. cbv zeta in Hp.
  destruct (process geocode (db, stats) raw) as [db' stats'].
  specialize (IH db' stats'). cbv zeta in IH |- *. simpl in Hp.
  destruct Hp as (?&?&?&?&?&?&?&Hg), IH as (?&?&?&?&?&?&?&Hg').
  cbn [length]. split_and!; try lia.
  intros Hall. rewrite Hg', Hg; [done|apply Hall; by left|].
  intros r Hr. apply Hall. by right.
Qed.

Lemma run_scraper_counters stream db stats :
  let r := run_scraper geocode (db, stats) stream in
  total_scraped r.2 = total_scraped stats + length stream ∧
  total_valid r.2 = total_valid stats + length stream ∧
  total_geocoded r.2 + total_failed r.2
  = total_geocoded stats + total_failed stats + length stream ∧
  total_created r.2 + total_updated r.2 + total_geocoded stats
  = total_created stats + total_updated stats + total_geocoded r.2 ∧
  length r.1 + total_created stats = length db + total_created r.2 ∧
  total_failed stats ≤ total_failed r.2 ∧
  total_created stats ≤ total_created r.2 ∧
  ((∀ raw, raw ∈ stream → is_Some (geocode raw)) →
   total_failed r.2 = total_failed stats).
Proof.
  unfold run_scraper.
  match goal with |- context [foldl _ (db, ?s) stream] =>
    pose proof (foldl_process_counters stream db s) as H
  end.
  cbv zeta in H |- *. simpl in H. exact H.
Qed.

Lemma run_all_scrapers_counters sources db stats :
  let r := foldl (run_scraper geocode) (db, stats) sources in
  total_scraped r.2 = total_scraped stats + length (concat sources) ∧
  total_valid r.2 = total_valid stats + length (concat sources) ∧
  total_geocoded r.2 + total_failed r.2
  = total_geocoded stats + total_failed stats + length (concat sources) ∧
  total_created r.2 + total_updated r.2 + total_geocoded stats
  = total_created stats + total_updated stats + total_geocoded r.2 ∧
  length r.1 + total_created stats = length db + total_created r.2 ∧
  total_failed stats ≤ total_failed r.2 ∧
  total_created stats ≤ total_created r.2 ∧
  ((∀ raw, raw ∈ concat sources → is_Some (geocode raw)) →
   total_failed r.2 = total_failed stats).
Proof.
  revert db stats. induction sources as [|stream sources IH]; intros db stats;
    cbn [foldl concat]; [simpl; split_and!; try lia; done|].
  pose proof (run_scraper_counters stream db stats) as Hp. cbv zeta in Hp.
  destruct (run_scraper geocode (db, stats) stream) as [db' stats'].
  specialize (IH db' stats'). cbv zeta in IH |- *. simpl in Hp.
  destruct Hp as (?&?&?&?&?&?&?&Hg), IH as (?&?&?&?&?&?&?&Hg').
  rewrite length_app. split_and!; try lia.
  intros Hall. rewrite Hg', Hg; [done|..];
    intros r Hr; apply Hall, elem_of_app; eauto.
Qed.

(** X18: after a run, [total_scraped] and [total_valid] both count the
    records the scrapers returned; no more records are counted geocoded
    than scraped, no more created or updated than geocoded, no more failed
    than scraped, and every record is counted geocoded or failed. *)
Theorem run_all_scrapers_stats db sources :
  let stats := (run_all_scrapers geocode db sources).2 in
  total_scraped stats = length (concat sources) ∧
  total_valid stats = total_scraped stats ∧
  total_created stats + total_updated stats ≤ total_geocoded stats ∧
  total_geocoded stats ≤ total_scraped stats ∧
  total_failed stats ≤ total_scraped stats ∧
  total_scraped stats ≤ total_geocoded stats + total_failed stats.
Proof.
  pose proof (run_all_scrapers_counters sources db stats0) as H.
  cbv zeta in H |- *. unfold run_all_scrapers. simpl in H. lia.
Qed.

(** X19: when a run counts no failure, every scraped record was geocoded
    and then created or updated, and the table has grown by exactly the
    number of records counted as created. *)
Theorem run_all_scrapers_without_failure db sources :
  let r := run_all_scrapers geocode db sources in
  total_failed r.2 = 0 →
  total_geocoded r.2 = total_scraped r.2 ∧
  total_created r.2 + total_updated r.2 = total_scraped r.2 ∧
  length r.1 = length db + total_created r.2.
Proof.
  pose proof (run_all_scrapers_counters sources db stats0) as H.
  cbv zeta in H |- *. unfold run_all_scrapers. simpl in H. lia.
Qed.

End proofs.

#[local] Existing Instance exact_lib.

Lemma run_all_scrapers_without_failure_witness :
  let r := run_all_scrapers fixed_geocoder [] [[scraped_shelter]] in
  total_geocoded r.2 = total_scraped r.2 ∧
  total_created r.2 + total_updated r.2 = total_scraped r.2 ∧
  length r.1 = length (@nil (ServiceLocation Z)) + total_created r.2.
Proof.
  apply (run_all_scrapers_without_failure fixed_geocoder []
           [[scraped_shelter]]).
  reflexivity.
Defined.



End IngestionProperties.

(** ** The deduplicator, continued *)

Module MatchProperties.
Import Deduplicator IngestionSpec StoreSpec.
Import DeduplicatorProofs Examples Examples2.

Section proofs.
Context {F : Type} {lib : StrLib}.
Implicit Types (db : list (ServiceLocation F)) (raw : RawServiceData).


Lemma high_confidence_no_address raw (c : ServiceLocation F) :
  raw_street_address raw = None ∨ raw_street_address raw = Some ""%string ∨
  street_address c = None ∨ street_address c = Some ""%string →
  high_confidence raw c = false.
Proof.
  intros Hno. unfold high_confidence.
  assert (address_similarity raw c = 0%Q) as ->; [|apply andb_false_r].
  unfold address_similarity.
  destruct (raw_street_address raw) as [[|??]|],
    (street_address c) as [[|??]|]; simpl; try done;
    exfalso; intuition congruence.
Qed.

(** X22: a record without a street address, with an empty one, or without
    a borough is matched by its upstream identity only: the fuzzy tier
    finds nothing for it, whatever the names are. *)
Theorem find_match_without_address db raw :
  raw_street_address raw = None ∨ raw_street_address raw = Some ""%string ∨
  truthy (raw_borough raw) = false →
  fuzzy_match db raw = None ∧ find_match db raw = identity_match db raw.
Proof.
  intros Hno.
  assert (fuzzy_match db raw = None) as Hf.
  { destruct Hno as [Ha | [Ha | Hb]].
    - apply fuzzy_match_None. intros i c _ _.
      apply high_confidence_no_address. by left.
    - apply fuzzy_match_None. intros i c _ _.
      apply high_confidence_no_address. right. by left.
    - unfold fuzzy_match. by rewrite Hb. }
  split; [done|]. unfold find_match. rewrite Hf.
  by destruct (identity_match db raw).
Qed.

(** X23: a stored row without a street address, or with an empty one, is
    never the result of the fuzzy tier: a row [find_match] returns either
    carries the upstream identity of the record or has a non-empty street
    address. *)
Theorem find_match_row_without_address db raw i c :
  find_match db raw = Some (i, c) →
  same_identity raw c ∨ ∃ a, street_address c = Some a ∧ a ≠ ""%string.
Proof.
  unfold find_match.
  destruct (identity_match db raw) as [[j m]|] eqn:Hid.
  - intros ?; simplify_eq. left.
    by apply identity_match_Some in Hid as (_&_&_&?&_).
  - intros (_ & _ & Hhc)%fuzzy_match_Some. right.
    destruct (street_address c) as [[|x a]|] eqn:Ha; [| by eexists |];
      rewrite high_confidence_no_address in Hhc; try done; tauto.
Qed.

End proofs.

#[local] Existing Instance exact_lib.

Lemma find_match_without_address_witness :
  fuzzy_match [live_shelter] anonymous_pantry = None ∧
  find_match [live_shelter] anonymous_pantry
  = identity_match [live_shelter] anonymous_pantry.
Proof.
  apply (find_match_without_address [live_shelter] anonymous_pantry).
  right. right. reflexivity.
Defined.

Lemma find_match_row_without_address_witness :
  same_identity scraped_shelter stored_shelter ∨
  ∃ a, street_address stored_shelter = Some a ∧ a ≠ ""%string.
Proof.
  apply (find_match_row_without_address [stored_shelter] scraped_shelter 0
           stored_shelter).
  reflexivity.
Defined.

End MatchProperties.

(** ** Services and operating hours of a location *)

Module TablesProperties.
Import GeospatialService DeduplicatorTables StoreSpec.
Import OpenNowProperties Examples Examples2.

Lemma filter_none {A} (P : A → Prop) `{!∀ x, Decision (P x)} (l : list A) :
  (∀ x, x ∈ l → ¬ P x) → filter P l = [].
Proof.
  induction l as [|x l IH]; intros Hno; [done|]. rewrite filter_cons.
  rewrite decide_False by (apply Hno; by left).
  apply IH. intros y Hy. apply Hno. by right.
Qed.

Lemma filter_all {A} (P : A → Prop) `{!∀ x, Decision (P x)} (l : list A) :
  (∀ x, x ∈ l → P x) → filter P l = l.
Proof.
  induction l as [|x l IH]; intros Hall; [done|]. rewrite filter_cons.
  rewrite decide_True by (apply Hall; by left).
  f_equal. apply IH. intros y Hy. apply Hall. by right.
Qed.

Lemma filter_filter_sub {A} (P Q : A → Prop) `{!∀ x, Decision (P x)}
    `{!∀ x, Decision (Q x)} (l : list A) :
  (∀ x, P x → Q x) → filter P (filter Q l) = filter P l.
Proof.
  intros Hsub. induction l as [|x l IH]; [done|]. rewrite !filter_cons.
  destruct (decide (Q x)) as [HQ|HQ].
  - rewrite filter_cons. destruct (decide (P x)); by rewrite IH.
  - rewrite decide_False by (intros HP; by apply HQ, Hsub). done.
Qed.

(** The rows [add_services] adds. *)
Lemma services_of_add_services tb location_id slugs caps :
  services_of (add_services tb location_id slugs caps) location_id
  = (λ st, {| row_location_id := location_id;
              row_service_type_id := st_id st;
              row_capacity := capacity_map caps !! st_slug st ≫= cap_capacity;
              row_notes := capacity_map caps !! st_slug st ≫= cap_notes |})
      <$> named_service_types tb slugs.
Proof.
  unfold services_of, add_services, named_service_types. cbn.
  rewrite filter_app, filter_none, filter_all; [done|..].
  - intros r (st & -> & _)%list_elem_of_fmap. done.
  - intros r [Hr _]%list_elem_of_filter. done.
Qed.



Lemma foldl_capacity_lookup (caps : list ServiceCapacity)
    (m : gmap string ServiceCapacity) slug :
  foldl (λ m cap, <[cap_service_type cap := cap]> m) m caps !! slug
  = match last (filter (λ c, cap_service_type c = slug) caps) with
    | Some c => Some c
    | None => m !! slug
    end.
Proof.
  revert m. induction caps as [|c caps IH]; intros m; [done|].
  cbn [foldl]. rewrite IH, filter_cons.
  destruct (decide (cap_service_type c = slug)) as [<-|Hne].
  - rewrite last_cons, lookup_insert_eq.
    by destruct (last (filter _ caps)).
  - by rewrite lookup_insert_ne.
Qed.

Lemma capacity_map_lookup caps slug :
  capacity_map caps !! slug = last_capacity caps slug.
Proof.
  unfold capacity_map, last_capacity.
  destruct caps as [[|c caps]|]; [done| |done].
  etrans; [apply (foldl_capacity_lookup (c :: caps) ∅ slug)|].
  rewrite lookup_empty.
  change (default [] (Some (c :: caps))) with (c :: caps).
  by destruct (last (filter (λ c0, cap_service_type c0 = slug) (c :: caps))).
Qed.

(** X25: after [add_services] the location has one service row for each
    stored service type whose slug is in the list, however often the slug
    is repeated, and none for a slug without service type; the capacity and
    the notes of a row are those of the last capacity record given for its
    slug, and empty when there is none. *)
Theorem add_services_rows tb location_id slugs caps :
  services_of (add_services tb location_id slugs caps) location_id
  = (λ st, {| row_location_id := location_id;
              row_service_type_id := st_id st;
              row_capacity := last_capacity caps (st_slug st) ≫= cap_capacity;
              row_notes := last_capacity caps (st_slug st) ≫= cap_notes |})
      <$> named_service_types tb slugs.
Proof.
  rewrite services_of_add_services. apply list_fmap_ext.
  intros _ st _. by rewrite capacity_map_lookup.
Qed.

Lemma foldl_dict_keys (ks seen : list Z) :
  NoDup seen →
  let keys :=
    foldl (λ seen k, if decide (k ∈ seen) then seen else seen ++ [k]) seen ks in
  NoDup keys ∧ ∀ k, k ∈ keys ↔ k ∈ seen ∨ k ∈ ks.
Proof.
  revert seen. induction ks as [|k ks IH]; intros seen Hnd; cbn [foldl].
  - split; [done|]. intros k. rewrite elem_of_nil. tauto.
  - destruct (decide (k ∈ seen)) as [Hin|Hnin].
    + destruct (IH seen Hnd) as [Hnd' Hel]. split; [done|].
      intros k'. rewrite Hel, elem_of_cons.
      split; [tauto|]. intros [?|[->|?]]; tauto.
    + assert (NoDup (seen ++ [k])) as Hnd2.
      { apply NoDup_app. split_and!; [done| |apply NoDup_singleton].
        intros x Hx ->%list_elem_of_singleton. done. }
      destruct (IH _ Hnd2) as [Hnd' Hel]. split; [done|].
      intros k'. rewrite Hel, elem_of_app, list_elem_of_singleton, elem_of_cons.
      tauto.
Qed.

Lemma dict_keys_spec ks :
  NoDup (dict_keys ks) ∧ ∀ k, k ∈ dict_keys ks ↔ k ∈ ks.
Proof.
  destruct (foldl_dict_keys ks [] (NoDup_nil_2)) as [Hnd Hel].
  split; [done|]. intros k. unfold dict_keys. rewrite Hel, elem_of_nil. tauto.
Qed.

Lemma dict_keys_nil ks : dict_keys ks = [] ↔ ks = [].
Proof.
  destruct (dict_keys_spec ks) as [_ Hel]. split.
  - intros Hnil. destruct ks as [|k ks]; [done|].
    assert (k ∈ dict_keys (k :: ks)) as Hin by (apply Hel; by left).
    rewrite Hnil in Hin. by apply elem_of_nil in Hin.
  - by intros ->.
Qed.

Lemma length_bind_fmap {A B C} (f : A → B → C) (l : list A) (keys : list B) :
  length (x ← l; f x <$> keys) = length l * length keys.
Proof.
  induction l as [|x l IH]; [done|].
  rewrite bind_cons, length_app, length_fmap, IH. simpl. lia.
Qed.

(** The rows [add_operating_hours] adds for the keys [keys]. *)
Lemma hours_of_added tb location_id (hs : list OperatingHours)
    (keys : list Z) other :
  filter (λ r, hours_location_id r = other)
    (filter (λ r, hours_location_id r ≠ location_id) (t_operating_hours tb) ++
     (h ← hs;
      (λ k, {| hours_location_id := location_id;
               hours_service_type_id := Some k;
               hours_entry := h |}) <$> keys))
  = if decide (other = location_id)
    then h ← hs;
         (λ k, {| hours_location_id := location_id;
                  hours_service_type_id := Some k;
                  hours_entry := h |}) <$> keys
    else hours_of tb other.
Proof.
  rewrite filter_app. case_decide as Hother.
  - subst other. rewrite filter_none, filter_all; [done|..].
    + intros r (h & (k & -> & _)%list_elem_of_fmap & _)%list_elem_of_bind.
      done.
    + intros r [Hr _]%list_elem_of_filter. done.
  - rewrite filter_filter_sub by congruence.
    rewrite (filter_none _ (_ ≫= _)); [by rewrite app_nil_r|].
    intros r (h & (k & -> & _)%list_elem_of_fmap & _)%list_elem_of_bind.
    simpl. congruence.
Qed.

(** X26: [add_operating_hours] does nothing when no hours are given or
    the location has no service; otherwise it replaces the hours of the
    location by one row for every entry given and every distinct service
    type of the location. It never touches the hours of another location,
    the services or the service types. *)
Theorem add_operating_hours_rows tb location_id hours :
  let tb' := add_operating_hours tb location_id hours in
  t_service_types tb' = t_service_types tb ∧
  t_location_services tb' = t_location_services tb ∧
  (∀ other, other ≠ location_id → hours_of tb' other = hours_of tb other) ∧
  match hours, services_of tb location_id with
  | Some ((_ :: _) as hs), _ :: _ =>
      ∃ keys,
        NoDup keys ∧ keys ≠ [] ∧
        (∀ k, k ∈ keys ↔
              ∃ r, r ∈ services_of tb location_id ∧ row_service_type_id r = k) ∧
        hours_of tb' location_id
        = (h ← hs;
           (λ k, {| hours_location_id := location_id;
                    hours_service_type_id := Some k;
                    hours_entry := h |}) <$> keys) ∧
        length (hours_of tb' location_id) = length hs * length keys
  | _, _ => tb' = tb
  end.
Proof.
  cbv zeta. unfold add_operating_hours.
  fold (services_of tb location_id).
  destruct hours as [[|h hs]|];
    [by destruct (services_of tb location_id)| |
     by destruct (services_of tb location_id)].
  destruct (dict_keys_spec (row_service_type_id <$> services_of tb location_id))
    as [Hnd Hel].
  pose proof (dict_keys_nil (row_service_type_id <$> services_of tb location_id))
    as Hnil.
  destruct (dict_keys (row_service_type_id <$> services_of tb location_id))
    as [|k keys] eqn:Hkeys.
  - assert (services_of tb location_id = []) as ->; [|done].
    apply fmap_nil_inv with row_service_type_id. by apply Hnil.
  - destruct (services_of tb location_id) as [|r rs] eqn:Hs.
    { by compute in Hkeys. }
    split_and!; [done|done| |].
    + intros other Hother. unfold hours_of at 1. cbn [t_operating_hours].
      rewrite hours_of_added. by rewrite decide_False.
    + exists (k :: keys). split_and!; [done|done| | |].
      * intros k'. rewrite Hel, list_elem_of_fmap. split.
        -- intros (r' & -> & ?). by exists r'.
        -- intros (r' & ? & <-). by exists r'.
      * unfold hours_of at 1. cbn [t_operating_hours].
        rewrite hours_of_added. by rewrite decide_True.
      * unfold hours_of at 1. cbn [t_operating_hours].
        rewrite hours_of_added, decide_True by done.
        apply length_bind_fmap.
Qed.

(** X27: the hours a location is stored with evaluate as the scraped
    ones: after [add_operating_hours] for a location with at least one
    service, the open-now value of the loaded hours of the location is the
    open-now value of the scraped list, at every instant. *)
Theorem stored_hours_open_now now tb location_id (hs : list OperatingHours) :
  hs ≠ [] → services_of tb location_id ≠ [] →
  _calculate_is_open_now now
    (loaded_operating_hours
       (add_operating_hours tb location_id (Some hs)) location_id)
  = _calculate_is_open_now now hs.
Proof.
  intros Hhs Hsv.
  pose proof (add_operating_hours_rows tb location_id (Some hs))
    as (_ & _ & _ & Hrows). cbv zeta in Hrows.
  destruct hs as [|h hs]; [done|].
  destruct (services_of tb location_id) as [|r rs]; [done|].
  destruct Hrows as (keys & _ & Hne & _ & Heq & _).
  apply open_now_same_entries. intros e.
  unfold loaded_operating_hours. fold (hours_of
    (add_operating_hours tb location_id (Some (h :: hs))) location_id).
  rewrite Heq, list_elem_of_fmap. split.
  - intros (row & -> & (h' & (k & -> & _)%list_elem_of_fmap & Hh')
             %list_elem_of_bind). done.
  - intros He. destruct keys as [|k keys]; [done|].
    eexists. split; [|apply list_elem_of_bind; exists e; split; [|done];
                      apply list_elem_of_fmap; exists k; split; [done|by left]].
    done.
Qed.

Lemma stored_hours_open_now_witness :
  _calculate_is_open_now (at_ Monday 12 0)
    (loaded_operating_hours
       (add_operating_hours catalog 0 (Some [nine_to_five])) 0)
  = _calculate_is_open_now (at_ Monday 12 0) [nine_to_five].
Proof.
  apply (stored_hours_open_now (at_ Monday 12 0) catalog 0 [nine_to_five]).
  - discriminate.
  - vm_compute. discriminate.
Defined.

(** X28: when none of the slugs of a record names a stored service type,
    [add_services] leaves the location without service and the
    [add_operating_hours] that follows it stores nothing: the scraped hours
    are dropped and the hours the location had stay. *)
Theorem hours_dropped_without_service_type tb location_id slugs caps hours :
  named_service_types tb slugs = [] →
  let tb' := add_services tb location_id slugs caps in
  services_of tb' location_id = [] ∧
  add_operating_hours tb' location_id hours = tb' ∧
  hours_of (add_operating_hours tb' location_id hours) location_id
  = hours_of tb location_id.
Proof.
  intros Hnone. cbv zeta.
  assert (services_of (add_services tb location_id slugs caps) location_id
          = []) as Hsv.
  { by rewrite services_of_add_services, Hnone. }
  assert (add_operating_hours (add_services tb location_id slugs caps)
            location_id hours
          = add_services tb location_id slugs caps) as Hsame.
  { unfold add_operating_hours.
    fold (services_of (add_services tb location_id slugs caps) location_id).
    rewrite Hsv. by destruct hours as [[|??]|]. }
  split_and!; [done|done|]. by rewrite Hsame.
Qed.

Lemma hours_dropped_without_service_type_witness :
  let tb' := add_services catalog 0 ["clinic"%string] None in
  services_of tb' 0 = [] ∧
  add_operating_hours tb' 0 (Some [nine_to_five]) = tb' ∧
  hours_of (add_operating_hours tb' 0 (Some [nine_to_five])) 0
  = hours_of catalog 0.
Proof.
  apply (hours_dropped_without_service_type catalog 0 ["clinic"%string] None
           (Some [nine_to_five])).
  reflexivity.
Defined.

End TablesProperties.
